(** * Bulk Tag Manager: the tag transformer, the rename path and the drivers

    A shallow embedding of [src/main.ts] (class [TagLowercasePlugin] and
    [TagManagerModal.updateStats]) and of the two functions of
    [src/verify_logic.js], followed by the properties of the specification.

    JavaScript strings are modelled as lists of Unicode code points.  Every
    regular expression of the source carries the [u] flag, so matching,
    replacing and case conversion all proceed code point by code point; a
    lone surrogate is a code point of its own.  On well-formed strings,
    comparing by code points and comparing by UTF-16 code units agree. *)

From Stdlib Require Import String Ascii List NArith ZArith Bool Lia.
From Stdlib Require Import Sorting.Sorted Sorting.Permutation.
Import ListNotations.

Local Open Scope N_scope.
Local Open Scope list_scope.

(* ------------------------------------------------------------------ *)
(** ** JavaScript strings *)

Module JS.

Definition codepoint := N.
Definition jsstring := list codepoint.

(** A literal of the source, read as code points (ASCII literals only). *)
Definition str (s : string) : jsstring :=
  List.map N_of_ascii (list_ascii_of_string s).

Definition hash : codepoint := 0x23.        (* # *)
Definition slash : codepoint := 0x2f.       (* / *)
Definition hyphen : codepoint := 0x2d.      (* - *)
Definition underscore : codepoint := 0x5f.  (* _ *)
Definition backslash : codepoint := 0x5c.
Definition newline : codepoint := 0x0a.

(** [a === b] on strings. *)
Fixpoint strictEq (a b : jsstring) : bool :=
  match a, b with
  | [], [] => true
  | x :: a', y :: b' => (x =? y) && strictEq a' b'
  | _, _ => false
  end.

(** [s.startsWith(p)] *)
Fixpoint startsWith (s p : jsstring) {struct p} : bool :=
  match p with
  | [] => true
  | y :: p' =>
      match s with
      | [] => false
      | x :: s' => (x =? y) && startsWith s' p'
      end
  end.

(** [s.substring(n)] for [n >= 0]: the suffix from position [n]; past the
    end it is the empty string.  Positions count code points: the source
    takes a substring past a prefix it has just checked (the marker, the
    search term), or past the marker that a known tag begins with. *)
Definition substring (n : nat) (s : jsstring) : jsstring := skipn n s.

(** [s.split(sep)] for a one-character separator.  The result is never
    empty: the empty string splits into one empty part. *)
Fixpoint split (sep : codepoint) (s : jsstring) : list jsstring :=
  match s with
  | [] => [[]]
  | c :: s' =>
      if c =? sep then [] :: split sep s'
      else match split sep s' with
           | p :: ps => (c :: p) :: ps
           | [] => [[c]]
           end
  end.

(** [parts.join(sep)] *)
Fixpoint join (sep : jsstring) (parts : list jsstring) : jsstring :=
  match parts with
  | [] => []
  | p :: ps =>
      match ps with
      | [] => p
      | _ :: _ => p ++ sep ++ join sep ps
      end
  end.

(** [arr.map((x, index) => f x index)], with the index of the first
    element as a parameter. *)
Fixpoint mapIndexFrom {A B : Type} (f : A -> nat -> B) (i : nat) (l : list A)
  : list B :=
  match l with
  | [] => []
  | x :: l' => f x i :: mapIndexFrom f (S i) l'
  end.

Definition mapIndex {A B : Type} (f : A -> nat -> B) (l : list A) : list B :=
  mapIndexFrom f 0 l.

(** The class [\s] of a regular expression: WhiteSpace and LineTerminator
    of ECMAScript. *)
Definition isSpace (c : codepoint) : bool :=
  ((0x09 <=? c) && (c <=? 0x0d))
  || (c =? 0x20) || (c =? 0xa0) || (c =? 0x1680)
  || ((0x2000 <=? c) && (c <=? 0x200a))
  || (c =? 0x2028) || (c =? 0x2029) || (c =? 0x202f)
  || (c =? 0x205f) || (c =? 0x3000) || (c =? 0xfeff).

End JS.
Export JS.

(* ------------------------------------------------------------------ *)
(** ** The Unicode tables of the host

    [\p{L}], [\p{N}], [toLowerCase] and [toUpperCase] belong to the
    JavaScript engine, not to the plugin.  They are a parameter of the
    embedding.  Case conversion is a function on whole strings: the default
    case conversion of Unicode looks at the context of a character (final
    sigma) and may change the length of a string. *)

Record UnicodeTables := {
  isLetter : codepoint -> bool;               (* \p{L} *)
  isNumber : codepoint -> bool;               (* \p{N} *)
  toLowerCase : jsstring -> jsstring;
  toUpperCase : jsstring -> jsstring
}.

(** What the proofs below ask of the tables, each a fact of the Unicode
    character database. *)

(** Converting twice is converting once. *)
Definition caseConversionIdempotent (U : UnicodeTables) : Prop :=
  forall s,
    toLowerCase U (toLowerCase U s) = toLowerCase U s /\
    toUpperCase U (toUpperCase U s) = toUpperCase U s.

(** Case conversion never introduces the character [c]. *)
Definition caseConversionKeepsOut (U : UnicodeTables) (c : codepoint) : Prop :=
  forall s,
    ~ In c s -> ~ In c (toLowerCase U s) /\ ~ In c (toUpperCase U s).

(** The empty string converts to itself. *)
Definition caseConversionOfEmpty (U : UnicodeTables) : Prop :=
  toLowerCase U [] = [] /\ toUpperCase U [] = [].

(** No white space character is a letter or a number. *)
Definition spaceIsNotAlphanumeric (U : UnicodeTables) : Prop :=
  forall c, isSpace c = true -> isLetter U c = false /\ isNumber U c = false.

(** A fragment of the Unicode character database, enough to run the code on
    concrete inputs: Basic Latin, E WITH ACUTE (U+00C9, U+00E9), LATIN
    CAPITAL LETTER I WITH DOT ABOVE (U+0130) and COMBINING DOT ABOVE
    (U+0307, a nonspacing mark).  It agrees with Unicode on these code
    points; every other code point is left alone by case conversion and
    counted neither as a letter nor as a number.  No statement about all
    strings is proved for this fragment alone. *)
Module LatinFragment.

Definition isUpperAZ (c : codepoint) : bool := (0x41 <=? c) && (c <=? 0x5a).
Definition isLowerAZ (c : codepoint) : bool := (0x61 <=? c) && (c <=? 0x7a).

Definition letter (c : codepoint) : bool :=
  isUpperAZ c || isLowerAZ c || (c =? 0xc9) || (c =? 0xe9) || (c =? 0x130).

Definition number (c : codepoint) : bool := (0x30 <=? c) && (c <=? 0x39).

(** SpecialCasing.txt: [0130; 0069 0307; 0130; 0130]. *)
Definition lowerOf (c : codepoint) : jsstring :=
  if isUpperAZ c then [c + 0x20]
  else if c =? 0xc9 then [0xe9]
  else if c =? 0x130 then [0x69; 0x307]
  else [c].

Definition upperOf (c : codepoint) : jsstring :=
  if isLowerAZ c then [c - 0x20]
  else if c =? 0xe9 then [0xc9]
  else [c].

Definition tables : UnicodeTables := {|
  isLetter := letter;
  isNumber := number;
  toLowerCase := fun s => flat_map lowerOf s;
  toUpperCase := fun s => flat_map upperOf s
|}.

End LatinFragment.

(* ------------------------------------------------------------------ *)
(** ** Settings *)

Inductive CaseStrategy := case_lowercase | case_uppercase | case_none.
Inductive SeparatorStrategy := sep_preserve | sep_snake | sep_kebab.

Record TagLowercaseSettings := {
  caseStrategy : CaseStrategy;
  separatorStrategy : SeparatorStrategy;
  removeSpecialChars : bool;
  applyToNestedTags : bool
}.

Definition DEFAULT_SETTINGS : TagLowercaseSettings := {|
  caseStrategy := case_lowercase;
  separatorStrategy := sep_preserve;
  removeSpecialChars := false;
  applyToNestedTags := true
|}.

(* ------------------------------------------------------------------ *)
(** ** The segment transformer ([transformSegment], [convertTagContent]) *)

Section Transformer.

Variable U : UnicodeTables.

(** The characters that [/[^\p{L}\p{N}\-_]/gu] does not match. *)
Definition keptChar (c : codepoint) : bool :=
  isLetter U c || isNumber U c || (c =? hyphen) || (c =? underscore).

(** [s.replace(/[^\p{L}\p{N}\-_]/gu, '')] *)
Definition removeSpecial (s : jsstring) : jsstring := filter keptChar s.

(** [s.replace(/a/g, 'b')] for single characters [a] and [b]. *)
Definition replaceChar (a b : codepoint) (s : jsstring) : jsstring :=
  List.map (fun c => if c =? a then b else c) s.

Definition transformSegment (settings : TagLowercaseSettings)
  (segment : jsstring) : jsstring :=
  let s := segment in
  let s := if removeSpecialChars settings then removeSpecial s else s in
  let s := match separatorStrategy settings with
           | sep_snake => replaceChar hyphen underscore s
           | sep_kebab => replaceChar underscore hyphen s
           | sep_preserve => s
           end in
  let s := match caseStrategy settings with
           | case_lowercase => toLowerCase U s
           | case_uppercase => toUpperCase U s
           | case_none => s
           end in
  s.

(** The callback of [parts.map] in [convertTagContent]. *)
Definition convertPart (settings : TagLowercaseSettings) (part : jsstring)
  (index : nat) : jsstring :=
  if (0 <? index)%nat && negb (applyToNestedTags settings)
  then part
  else transformSegment settings part.

Definition convertTagContent (settings : TagLowercaseSettings)
  (tagContent : jsstring) : jsstring :=
  let parts := split slash tagContent in
  let processedParts := mapIndex (convertPart settings) parts in
  join [slash] processedParts.

End Transformer.

(* ------------------------------------------------------------------ *)
(** ** Exceptions, and callbacks that write a captured variable *)

Inductive Exn :=
| TypeError      (* a method called on a value that does not have it *)
| SyntaxError.   (* a pattern the RegExp constructor rejects *)

Inductive Result (A : Type) :=
| Ok (a : A)
| Throw (e : Exn).
Arguments Ok {A} a.
Arguments Throw {A} e.

(** A computation that may throw and that reads and writes a variable of
    type [St] captured from the enclosing function ([modified] in
    [renameTag]; nothing, [unit], in [processFile]). *)
Definition Eff (St A : Type) : Type := St -> Result (A * St).

Definition ret {St A : Type} (a : A) : Eff St A := fun st => Ok (a, st).

Definition throw {St A : Type} (e : Exn) : Eff St A := fun _ => Throw e.

Definition bind {St A B : Type} (m : Eff St A) (k : A -> Eff St B)
  : Eff St B :=
  fun st => match m st with
            | Ok (a, st') => k a st'
            | Throw e => Throw e
            end.

Notation "x <- m ;; k" := (bind m (fun x => k))
  (at level 61, m at next level, right associativity).

(** [arr.map(f)] when [f] has effects: elements in order, stopping at the
    first exception. *)
Fixpoint mapEff {St A B : Type} (f : A -> Eff St B) (l : list A)
  : Eff St (list B) :=
  match l with
  | [] => ret []
  | x :: l' => y <- f x ;; ys <- mapEff f l' ;; ret (y :: ys)
  end.

(* ------------------------------------------------------------------ *)
(** ** Documents

    A document has a structured-metadata section and a raw text body.  The
    fields [tags] and [tag] of the metadata hold whatever the YAML of the
    document holds. *)

(** An element of an array in the front matter. *)
Inductive FmElem :=
| ElString (s : jsstring)
| ElOther.                   (* a number, null, a nested array, ... *)

Inductive FmValue :=
| FmMissing                  (* undefined, null and the other falsy non-strings *)
| FmString (s : jsstring)
| FmArray (l : list FmElem)
| FmOther.                   (* truthy, neither an array nor a string *)

Record FrontMatter := {
  tags : FmValue;
  tag : FmValue
}.

Record TFile := {
  path : jsstring;
  frontmatter : FrontMatter;
  body : jsstring
}.

(** User-visible notices, by the template of their message. *)
Inductive Notice :=
| StartingConversion (n : nat)      (* Starting conversion on n files... *)
| CompletedProcessed (n : nat)      (* Completed. Processed n files. *)
| NoTagsInVault                     (* No tags found in vault. *)
| NoTagsToList                      (* No tags found to list. *)
| UpdatedList (fileName : jsstring) (n : nat)
| CreatedList (fileName : jsstring) (n : nat)
| ProvideBothTags                   (* Please provide both old and new tags. *)
| Renaming (search replace : jsstring)
| RenamedIn (n : nat).              (* Renamed in n files. *)

(** What a run does to the world outside the plugin, in order. *)
Inductive Event :=
| GetMarkdownFiles                       (* vault.getMarkdownFiles() *)
| ProcessFrontMatter (p : jsstring)      (* fileManager.processFrontMatter *)
| Process (p : jsstring)                 (* vault.process *)
| Modify (p : jsstring)                  (* vault.modify *)
| Create (p : jsstring)                  (* vault.create *)
| ConsoleError (p : jsstring)
| NewNotice (n : Notice).

(** Does an event read or write a document? *)
Definition touchesDocument (e : Event) : bool :=
  match e with
  | ProcessFrontMatter _ | Process _ | Modify _ | Create _ => true
  | GetMarkdownFiles | ConsoleError _ | NewNotice _ => false
  end.

(** What processing one file comes to: the file as left behind, the
    accesses made to it, and the exception if one was thrown. *)
Record Outcome := {
  fileAfter : TFile;
  accesses : list Event;
  thrown : option Exn
}.

(** [fileManager.processFrontMatter(file, fn)]: [fn] mutates the parsed
    front matter, which is written back when [fn] returns; an exception of
    [fn] rejects the promise and nothing is written. *)
Definition processFrontMatter {St : Type} (file : TFile)
  (fn : FrontMatter -> Eff St FrontMatter) : Eff St TFile :=
  fm <- fn (frontmatter file) ;;
  ret {| path := path file; frontmatter := fm; body := body file |}.

(** [vault.process(file, fn)]: the text becomes [fn(text)]. *)
Definition process {St : Type} (file : TFile)
  (fn : jsstring -> St -> jsstring * St) : Eff St TFile :=
  fun st =>
    let (data, st') := fn (body file) st in
    Ok ({| path := path file; frontmatter := frontmatter file;
           body := data |}, st').

(** The block that both [renameTag] and [processFile] apply to
    [frontmatter.tags] and to [frontmatter.tag]:
    [if (v) { if (Array.isArray(v)) v = v.map(f)
              else if (typeof v === 'string') v = f(v) }].
    The empty string is falsy.  [f] calls [t.startsWith], which an element
    that is not a string does not have. *)
Definition onElem {St : Type} (f : jsstring -> Eff St jsstring) (e : FmElem)
  : Eff St FmElem :=
  match e with
  | ElString t => t' <- f t ;; ret (ElString t')
  | ElOther => throw TypeError
  end.

Definition processField {St : Type} (f : jsstring -> Eff St jsstring)
  (v : FmValue) : Eff St FmValue :=
  match v with
  | FmMissing => ret v
  | FmString [] => ret v
  | FmString t => t' <- f t ;; ret (FmString t')
  | FmArray l => l' <- mapEff (onElem f) l ;; ret (FmArray l')
  | FmOther => ret v
  end.

Definition processTagFields {St : Type} (f : jsstring -> Eff St jsstring)
  (fm : FrontMatter) : Eff St FrontMatter :=
  v1 <- processField f (tags fm) ;;
  v2 <- processField f (tag fm) ;;
  ret {| tags := v1; tag := v2 |}.

(* ------------------------------------------------------------------ *)
(** ** [data.replace(regex, fn)] with a global regular expression

    [exec atStart text] matches the expression at the current position,
    where [text] is what is left of the input and [atStart] says whether the
    position is the start of the input; it gives the length of the match and
    its capture groups.  The search resumes where a match ends, and one code
    point further where there is none. *)

Section Replace.

Context {G St : Type}.
Variable exec : bool -> jsstring -> option (nat * G).
Variable replacer : G -> St -> jsstring * St.

Fixpoint replaceFrom (skip : nat) (atStart : bool) (data : jsstring) (st : St)
  : jsstring * St :=
  match data with
  | [] => ([], st)
  | c :: rest =>
      match skip with
      | S k => replaceFrom k false rest st
      | O =>
          match exec atStart data with
          | Some (len, g) =>
              let (r, st1) := replacer g st in
              match len with
              | S k =>
                  let (out, st2) := replaceFrom k false rest st1 in
                  (r ++ out, st2)
              | O =>
                  let (out, st2) := replaceFrom 0 false rest st1 in
                  (r ++ c :: out, st2)
              end
          | None =>
              let (out, st1) := replaceFrom 0 false rest st in
              (c :: out, st1)
          end
      end
  end.

Definition replaceGlobal (data : jsstring) (st : St) : jsstring * St :=
  replaceFrom 0 true data st.

End Replace.

(* ------------------------------------------------------------------ *)
(** ** The rename path ([renameTag]) *)

(** The characters [.*+?^${}()|[\]\\] of the class in [escapeRegExp]; they
    are the syntax characters of a pattern. *)
Definition isSyntaxChar (c : codepoint) : bool :=
  (c =? 0x2e) || (c =? 0x2a) || (c =? 0x2b) || (c =? 0x3f) || (c =? 0x5e)
  || (c =? 0x24) || (c =? 0x7b) || (c =? 0x7d) || (c =? 0x28) || (c =? 0x29)
  || (c =? 0x7c) || (c =? 0x5b) || (c =? 0x5d) || (c =? 0x5c).

(** [string.replace(/[.*+?^${}()|[\]\\]/g, '\\$&')] *)
Definition escapeRegExp (string : jsstring) : jsstring :=
  flat_map (fun c => if isSyntaxChar c then [backslash; c] else [c]) string.

(** What the RegExp constructor makes of the source of the third group when
    the source is a plain literal: a character that is not a syntax
    character stands for itself, and so does a syntax character (or a
    slash) after a backslash.  Any other source is outside this fragment of
    the pattern grammar ([None]). *)
Fixpoint patternLiteral (source : jsstring) : option jsstring :=
  match source with
  | [] => Some []
  | c :: source' =>
      if c =? backslash then
        match source' with
        | d :: source'' =>
            if isSyntaxChar d || (d =? slash)
            then option_map (cons d) (patternLiteral source'')
            else None
        | [] => None
        end
      else if isSyntaxChar c then None
      else option_map (cons c) (patternLiteral source')
  end.

(** The capture groups of a match of [tagRegex]. *)
Record TagMatch := {
  prefix : jsstring;
  hashGroup : jsstring;
  capturedTag : jsstring
}.

Section Rename.

Variable U : UnicodeTables.

(** The lookahead [(?=[\s\/]|$|[^\p{L}\p{N}_-])] on what follows. *)
Definition lookahead (rest : jsstring) : bool :=
  match rest with
  | [] => true
  | c :: _ =>
      isSpace c || (c =? slash)
      || negb (isLetter U c || isNumber U c || (c =? underscore)
               || (c =? hyphen))
  end.

(** [(#)(literal)(?=...)] after the first group has matched [pre]. *)
Definition tagAfterBoundary (literal pre text : jsstring)
  : option (nat * TagMatch) :=
  match text with
  | h :: text' =>
      if (h =? hash) && startsWith text' literal
         && lookahead (skipn (length literal) text')
      then Some ((length pre + 1 + length literal)%nat,
                 {| prefix := pre; hashGroup := [hash];
                    capturedTag := literal |})
      else None
  | [] => None
  end.

(** [(^|\s)(#)(literal)(?=[\s\/]|$|[^\p{L}\p{N}_-])] with flags [gu]: the
    first alternative of the first group is tried first.  Without the [m]
    flag [^] is the start of the input only. *)
Definition tagRegex (literal : jsstring) (atStart : bool) (text : jsstring)
  : option (nat * TagMatch) :=
  match (if atStart then tagAfterBoundary literal [] text else None) with
  | Some m => Some m
  | None =>
      match text with
      | w :: text' =>
          if isSpace w then tagAfterBoundary literal [w] text' else None
      | [] => None
      end
  end.

(** [new RegExp(`(^|\\s)(#)(${escapedSearch})(?=...)`, 'gu')], for the
    sources of the third group that [patternLiteral] reads. *)
Definition newTagRegExp (escapedSearch : jsstring) : Result jsstring :=
  match patternLiteral escapedSearch with
  | Some literal => Ok literal
  | None => Throw SyntaxError
  end.

(** The inner [processSingleTag] of [renameTag]; the captured variable is
    [modified]. *)
Definition rename_processSingleTag (search replace t : jsstring)
  : Eff bool jsstring :=
  fun modified =>
    let hasHash := startsWith t [hash] in
    let raw := if hasHash then substring 1 t else t in
    if strictEq raw search then
      Ok ((if hasHash then hash :: replace else replace), true)
    else if startsWith raw (search ++ [slash]) then
      let newRaw := replace ++ substring (length search) raw in
      Ok ((if hasHash then hash :: newRaw else newRaw), true)
    else Ok (t, modified).

(** The callback of [data.replace(tagRegex, ...)]. *)
Definition rename_replacer (replace : jsstring) (m : TagMatch)
  (modified : bool) : jsstring * bool :=
  (prefix m ++ hashGroup m ++ replace, true).

Definition rename_body (literal replace data : jsstring) (modified : bool)
  : jsstring * bool :=
  replaceGlobal (tagRegex literal) (rename_replacer replace) data modified.

(** What [data.replace] does with the text that follows a match: the search
    goes on past the start of the text, and [modified] has been set. *)
Definition renameRest (literal replace data : jsstring) : jsstring * bool :=
  replaceFrom (tagRegex literal) (rename_replacer replace) 0 false data true.

(** One turn of the loop [for (const file of files)] of [renameTag]: the
    file as rewritten and the value of [modified] at the end of the turn. *)
Definition rename_file (literal search replace : jsstring) (file : TFile)
  : Result (TFile * bool) :=
  (file1 <- processFrontMatter file
              (processTagFields (rename_processSingleTag search replace)) ;;
   process file1 (rename_body literal replace)) false.

(** The loop.  Nothing catches an exception here: it ends the run, with the
    files before it rewritten and the others as they were. *)
Fixpoint rename_loop (literal search replace : jsstring) (files : list TFile)
  (processedCount : nat) : list TFile * list Event * Result nat :=
  match files with
  | [] => ([], [], Ok processedCount)
  | file :: files' =>
      match rename_file literal search replace file with
      | Throw e => (file :: files', [ProcessFrontMatter (path file)], Throw e)
      | Ok (file', modified) =>
          let '(rest, events, res) :=
            rename_loop literal search replace files'
              (if modified then S processedCount else processedCount) in
          (file' :: rest,
           ProcessFrontMatter (path file) :: Process (path file) :: events,
           res)
      end
  end.

(** [renameTag(oldTag, newTag)] on a vault: the vault afterwards, the
    events in order, and the exception that ended the run, if any. *)
Definition renameTag (oldTag newTag : jsstring) (vault : list TFile)
  : list TFile * list Event * option Exn :=
  let search := if startsWith oldTag [hash] then substring 1 oldTag
                else oldTag in
  let replace := if startsWith newTag [hash] then substring 1 newTag
                 else newTag in
  match search, replace with
  | [], _ | _, [] =>
      (vault, [GetMarkdownFiles; NewNotice ProvideBothTags], None)
  | _ :: _, _ :: _ =>
      let escapedSearch := escapeRegExp search in
      match newTagRegExp escapedSearch with
      | Throw e =>
          (vault, [GetMarkdownFiles; NewNotice (Renaming search replace)],
           Some e)
      | Ok literal =>
          let '(vault', events, res) :=
            rename_loop literal search replace vault 0 in
          match res with
          | Ok processedCount =>
              (vault',
               GetMarkdownFiles :: NewNotice (Renaming search replace)
                 :: events ++ [NewNotice (RenamedIn processedCount)],
               None)
          | Throw e =>
              (vault',
               GetMarkdownFiles :: NewNotice (Renaming search replace)
                 :: events,
               Some e)
          end
      end
  end.

End Rename.

(* ------------------------------------------------------------------ *)
(** ** Bulk normalization ([processFile], [runConversion]) *)

Section Convert.

Variable U : UnicodeTables.
Variable settings : TagLowercaseSettings.

(** The inner [processSingleTag] of [processFile]. *)
Definition convert_processSingleTag (t : jsstring) : Eff unit jsstring :=
  let hasHash := startsWith t [hash] in
  let clean := if hasHash then substring 1 t else t in
  let converted := convertTagContent U settings clean in
  ret (if hasHash then hash :: converted else converted).

(** The class [[\p{L}\p{N}_\-\/]] of the body of an inline tag. *)
Definition tagBodyChar (c : codepoint) : bool :=
  isLetter U c || isNumber U c || (c =? underscore) || (c =? hyphen)
  || (c =? slash).

(** The longest prefix of [text] made of tag body characters: what the
    greedy [[\p{L}\p{N}_\-\/]+] takes. *)
Fixpoint tagRun (text : jsstring) : jsstring :=
  match text with
  | c :: text' => if tagBodyChar c then c :: tagRun text' else []
  | [] => []
  end.

(** [(#[\p{L}\p{N}_\-\/]+)] after the first group has matched [pre]; the
    groups are [(prefix, tag)]. *)
Definition inlineAfterBoundary (pre text : jsstring)
  : option (nat * (jsstring * jsstring)) :=
  match text with
  | h :: text' =>
      if h =? hash then
        match tagRun text' with
        | [] => None
        | run => Some ((length pre + 1 + length run)%nat, (pre, hash :: run))
        end
      else None
  | [] => None
  end.

(** [/(^|\s)(#[\p{L}\p{N}_\-\/]+)/gu] *)
Definition inlineTagRegex (atStart : bool) (text : jsstring)
  : option (nat * (jsstring * jsstring)) :=
  match (if atStart then inlineAfterBoundary [] text else None) with
  | Some m => Some m
  | None =>
      match text with
      | w :: text' =>
          if isSpace w then inlineAfterBoundary [w] text' else None
      | [] => None
      end
  end.

Definition convert_replacer (groups : jsstring * jsstring) (st : unit)
  : jsstring * unit :=
  let (pre, tagText) := groups in
  let clean := substring 1 tagText in
  let converted := convertTagContent U settings clean in
  (pre ++ hash :: converted, st).

Definition convert_body (data : jsstring) (st : unit) : jsstring * unit :=
  replaceGlobal inlineTagRegex convert_replacer data st.

(** [processFile(file)]: the file as left behind, the accesses made to it,
    and the exception if one was thrown. *)
Definition processFile (file : TFile) : Outcome :=
  match (file1 <- processFrontMatter file
                    (processTagFields convert_processSingleTag) ;;
         process file1 convert_body) tt with
  | Ok (file', _) =>
      {| fileAfter := file';
         accesses := [ProcessFrontMatter (path file); Process (path file)];
         thrown := None |}
  | Throw e =>
      {| fileAfter := file;
         accesses := [ProcessFrontMatter (path file)];
         thrown := Some e |}
  end.

End Convert.

(** [runConversion], for any way of processing one file. *)
Section Driver.

Variable processFile_ : TFile -> Outcome.

(** Did the processing of this file return without an exception? *)
Definition processedWithoutException (file : TFile) : bool :=
  match thrown (processFile_ file) with
  | None => true
  | Some _ => false
  end.

Fixpoint runConversion_loop (files : list TFile) (processedCount : nat)
  : list TFile * list Event * nat :=
  match files with
  | [] => ([], [], processedCount)
  | file :: files' =>
      let outcome := processFile_ file in
      match thrown outcome with
      | None =>
          let '(rest, events, n) :=
            runConversion_loop files' (S processedCount) in
          (fileAfter outcome :: rest, accesses outcome ++ events, n)
      | Some _ =>
          let '(rest, events, n) :=
            runConversion_loop files' processedCount in
          (fileAfter outcome :: rest,
           accesses outcome ++ ConsoleError (path file) :: events, n)
      end
  end.

Definition runConversionWith (files : list TFile)
  : list TFile * list Event :=
  let '(files', events, processedCount) := runConversion_loop files 0 in
  (files',
   GetMarkdownFiles :: NewNotice (StartingConversion (length files))
     :: events ++ [NewNotice (CompletedProcessed processedCount)]).

End Driver.

Definition runConversion (U : UnicodeTables) (settings : TagLowercaseSettings)
  (vault : list TFile) : list TFile * list Event :=
  runConversionWith (processFile U settings) vault.

(* ------------------------------------------------------------------ *)
(** ** Tag enumeration ([updateStats], [generateTagList]) *)

(** [metadataCache.getTags()]: an object from tag names, each with its
    marker, to counts; or nothing.  The keys of an object are distinct;
    they are listed in the order of insertion. *)
Definition TagRecord := list (jsstring * nat).

Definition objectKeys (o : TagRecord) : list jsstring := List.map fst o.

Record Plugin := {
  vault : list TFile;
  getTags : option TagRecord;
  settings : TagLowercaseSettings
}.

Inductive StatLine :=
| TotalUniqueTags (n : nat)       (* Total Unique Tags: n *)
| TagsToBeUpdated (n : nat).      (* Tags to be Updated (Bulk): n *)

Record TagManagerModal := {
  plugin : Plugin;
  statsEl : list StatLine
}.

(** [allTags ? Object.keys(allTags) : []] *)
Definition uniqueTags (p : Plugin) : list jsstring :=
  match getTags p with
  | Some allTags => objectKeys allTags
  | None => []
  end.

Section Enumeration.

Variable U : UnicodeTables.

(** The counter of the [forEach] of [updateStats]. *)
Definition countAffected (cfg : TagLowercaseSettings)
  (uniqueTags : list jsstring) : nat :=
  fold_left (fun affectedCount tag =>
               let raw := substring 1 tag in
               let converted := convertTagContent U cfg raw in
               if negb (strictEq raw converted) then S affectedCount
               else affectedCount)
            uniqueTags 0%nat.

Definition updateStats (modal : TagManagerModal) : TagManagerModal :=
  let totalCount := length (uniqueTags (plugin modal)) in
  let affectedCount :=
    countAffected (settings (plugin modal)) (uniqueTags (plugin modal)) in
  {| plugin := plugin modal;
     statsEl := [TotalUniqueTags totalCount; TagsToBeUpdated affectedCount] |}.

End Enumeration.

Section TagList.

(** [a.localeCompare(b)]: negative, zero or positive.  The order is that of
    the collation of the host's locale. *)
Variable localeCompare : jsstring -> jsstring -> Z.

(** [arr.sort((a, b) => a.localeCompare(b))].  The sort of an array is
    stable; it is computed here by insertion, each element going before the
    elements after it that do not come strictly first. *)
Fixpoint sortInsert (a : jsstring) (sorted : list jsstring) : list jsstring :=
  match sorted with
  | [] => [a]
  | b :: sorted' =>
      if (localeCompare a b <=? 0)%Z then a :: sorted
      else b :: sortInsert a sorted'
  end.

Definition sort (arr : list jsstring) : list jsstring :=
  fold_right sortInsert [] arr.

Definition fileName : jsstring := str "All Tags.md".

(** [`# All Tags\n\n${sortedTags.map(t => `- ${t}`).join('\n')}\n`] *)
Definition tagListContent (sortedTags : list jsstring) : jsstring :=
  str "# All Tags" ++ [newline; newline]
  ++ join [newline] (List.map (fun t => str "- " ++ t) sortedTags)
  ++ [newline].

(** [vault.modify(existingFile, fileContent)] *)
Fixpoint modifyFile (name content : jsstring) (files : list TFile)
  : list TFile :=
  match files with
  | [] => []
  | f :: files' =>
      if strictEq (path f) name
      then {| path := name;
              frontmatter := {| tags := FmMissing; tag := FmMissing |};
              body := content |} :: files'
      else f :: modifyFile name content files'
  end.

(** [vault.create(fileName, fileContent)] *)
Definition createFile (name content : jsstring) (files : list TFile)
  : list TFile :=
  files ++ [{| path := name;
               frontmatter := {| tags := FmMissing; tag := FmMissing |};
               body := content |}].

(** [generateTagList].  The calls to the vault are taken to succeed; in the
    source their failure is caught and reported by a notice. *)
Definition generateTagList (p : Plugin) : Plugin * list Event :=
  match getTags p with
  | None => (p, [NewNotice NoTagsInVault])
  | Some tagRecord =>
      let sortedTags := sort (objectKeys tagRecord) in
      match sortedTags with
      | [] => (p, [NewNotice NoTagsToList])
      | _ :: _ =>
          let fileContent := tagListContent sortedTags in
          if existsb (fun f => strictEq (path f) fileName) (vault p)
          then ({| vault := modifyFile fileName fileContent (vault p);
                   getTags := getTags p; settings := settings p |},
                [Modify fileName;
                 NewNotice (UpdatedList fileName (length sortedTags))])
          else ({| vault := createFile fileName fileContent (vault p);
                   getTags := getTags p; settings := settings p |},
                [Create fileName;
                 NewNotice (CreatedList fileName (length sortedTags))])
      end
  end.

End TagList.

(** A fragment of the root collation, enough to run [generateTagList] on
    concrete tags: ASCII letters are compared without regard to case first
    (a, B, c in this order), and lower case goes before upper case only to
    break a tie.  Every other character is compared by its code point, which
    is not its place in the collation; nothing below depends on it. *)
Module RootCollationFragment.

Definition primary (c : codepoint) : N :=
  if LatinFragment.isUpperAZ c then c + 0x20 else c.

Definition tertiary (c : codepoint) : N :=
  if LatinFragment.isUpperAZ c then 1 else 0.

Fixpoint compareBy (key : codepoint -> N) (a b : jsstring) : comparison :=
  match a, b with
  | [], [] => Eq
  | [], _ :: _ => Lt
  | _ :: _, [] => Gt
  | x :: a', y :: b' =>
      match N.compare (key x) (key y) with
      | Eq => compareBy key a' b'
      | r => r
      end
  end.

Definition localeCompare (a b : jsstring) : Z :=
  match compareBy primary a b with
  | Lt => (-1)%Z
  | Gt => 1%Z
  | Eq => match compareBy tertiary a b with
          | Lt => (-1)%Z
          | Gt => 1%Z
          | Eq => 0%Z
          end
  end.

End RootCollationFragment.

(** The order of code points on strings. *)
Fixpoint codePointLe (a b : jsstring) : bool :=
  match a, b with
  | [], _ => true
  | _ :: _, [] => false
  | x :: a', y :: b' => (x <? y) || ((x =? y) && codePointLe a' b')
  end.

(* ------------------------------------------------------------------ *)
(** ** The match rule in the words of the specification *)

(** A tag value with its optional leading marker removed. *)
Definition markerStripped (t : jsstring) : jsstring :=
  match t with
  | c :: raw => if c =? hash then raw else t
  | [] => t
  end.

(** [raw] equals [search], or [raw] starts with [search] followed by a
    slash. *)
Definition specMatchRule (search raw : jsstring) : Prop :=
  raw = search \/ exists rest, raw = search ++ slash :: rest.

(* ------------------------------------------------------------------ *)
(** ** Settings used in the examples *)

Definition settingsVariants_kebab : TagLowercaseSettings :=
  {| caseStrategy := case_lowercase; separatorStrategy := sep_kebab;
     removeSpecialChars := false; applyToNestedTags := true |}.

Definition settingsVariants_snake : TagLowercaseSettings :=
  {| caseStrategy := case_lowercase; separatorStrategy := sep_snake;
     removeSpecialChars := false; applyToNestedTags := true |}.

Definition settingsVariants_preserve : TagLowercaseSettings :=
  {| caseStrategy := case_lowercase; separatorStrategy := sep_preserve;
     removeSpecialChars := false; applyToNestedTags := true |}.

(** Lower case with removal of special characters. *)
Definition settings_lowercase_strip : TagLowercaseSettings :=
  {| caseStrategy := case_lowercase; separatorStrategy := sep_preserve;
     removeSpecialChars := true; applyToNestedTags := true |}.

(** Lower case, snake separators, removal of special characters, first
    segment only. *)
Definition settings_first_segment_only : TagLowercaseSettings :=
  {| caseStrategy := case_lowercase; separatorStrategy := sep_snake;
     removeSpecialChars := true; applyToNestedTags := false |}.

(** Three documents; the tags of the second hold a number. *)
Definition exampleVault : list TFile :=
  [ {| path := str "one.md";
       frontmatter := {| tags := FmArray [ElString (str "#My-Tag")];
                         tag := FmMissing |};
       body := str "About #My-Tag/Sub." |};
    {| path := str "two.md";
       frontmatter := {| tags := FmArray [ElString (str "Year"); ElOther];
                         tag := FmMissing |};
       body := str "In #Year." |};
    {| path := str "three.md";
       frontmatter := {| tags := FmMissing; tag := FmString (str "Last") |};
       body := str "#Last" |} ].

(** A plugin whose vault knows the tags [#A], [#a] and [#B/c], with the
    default settings, and its dashboard before the statistics are drawn. *)
Definition examplePlugin : Plugin :=
  {| vault := exampleVault;
     getTags := Some [(str "#A", 1%nat); (str "#a", 2%nat);
                      (str "#B/c", 1%nat)];
     settings := DEFAULT_SETTINGS |}.

Definition exampleModal : TagManagerModal :=
  {| plugin := examplePlugin; statsEl := [] |}.

(** A plugin whose vault knows the tags [#B] and [#a] and holds no file. *)
Definition pluginWithTwoTags : Plugin :=
  {| vault := [];
     getTags := Some [(str "#B", 1%nat); (str "#a", 1%nat)];
     settings := DEFAULT_SETTINGS |}.

(* ------------------------------------------------------------------ *)
(** ** Settings on disk ([loadSettings], [saveSettings], the [onChange]
    handlers of the dashboard and of the settings tab) *)

(** The object that [loadData()] parses from the data file of the plugin: a
    key is present or not.  [snakeCase] is the key of an earlier version;
    its value is kept by its truthiness. *)
Record PluginData := {
  data_caseStrategy : option CaseStrategy;
  data_separatorStrategy : option SeparatorStrategy;
  data_removeSpecialChars : option bool;
  data_applyToNestedTags : option bool;
  data_snakeCase : option bool
}.

(** [this.settings]: the four settings, and the property [snakeCase] when
    [Object.assign] has copied it from the data. *)
Record SettingsObject := {
  values : TagLowercaseSettings;
  snakeCaseProperty : option bool
}.

Definition orDefault {A : Type} (stored : option A) (default : A) : A :=
  match stored with
  | Some v => v
  | None => default
  end.

(** [Object.assign({}, DEFAULT_SETTINGS, data)]: every own property of
    [data] is copied over the defaults; [null] contributes nothing. *)
Definition objectAssign (data : option PluginData) : SettingsObject :=
  match data with
  | None => {| values := DEFAULT_SETTINGS; snakeCaseProperty := None |}
  | Some d =>
      {| values :=
           {| caseStrategy :=
                orDefault (data_caseStrategy d) (caseStrategy DEFAULT_SETTINGS);
              separatorStrategy :=
                orDefault (data_separatorStrategy d)
                  (separatorStrategy DEFAULT_SETTINGS);
              removeSpecialChars :=
                orDefault (data_removeSpecialChars d)
                  (removeSpecialChars DEFAULT_SETTINGS);
              applyToNestedTags :=
                orDefault (data_applyToNestedTags d)
                  (applyToNestedTags DEFAULT_SETTINGS) |};
         snakeCaseProperty := data_snakeCase d |}
  end.

(** [saveSettings()]: [saveData(this.settings)] writes every property of the
    settings object. *)
Definition saveSettings (s : SettingsObject) : PluginData :=
  {| data_caseStrategy := Some (caseStrategy (values s));
     data_separatorStrategy := Some (separatorStrategy (values s));
     data_removeSpecialChars := Some (removeSpecialChars (values s));
     data_applyToNestedTags := Some (applyToNestedTags (values s));
     data_snakeCase := snakeCaseProperty s |}.

(** [this.settings.separatorStrategy = value] *)
Definition setSeparatorStrategy (value : SeparatorStrategy)
  (s : SettingsObject) : SettingsObject :=
  {| values :=
       {| caseStrategy := caseStrategy (values s);
          separatorStrategy := value;
          removeSpecialChars := removeSpecialChars (values s);
          applyToNestedTags := applyToNestedTags (values s) |};
     snakeCaseProperty := snakeCaseProperty s |}.

(** [loadSettings()] on the content of the data file ([None]: no data): the
    settings object, and the content of the data file afterwards.
    [loadData()] is called twice and parses the file each time; the
    [delete] acts on the second object, the one that is not saved. *)
Definition loadSettings (disk : option PluginData)
  : SettingsObject * option PluginData :=
  let settings := objectAssign disk in
  let data := disk in
  match data with
  | Some d =>
      match data_snakeCase d with
      | Some snakeCase =>
          let settings :=
            setSeparatorStrategy
              (if snakeCase then sep_snake else sep_preserve) settings in
          (settings, Some (saveSettings settings))
      | None => (settings, disk)
      end
  | None => (settings, disk)
  end.

(** The [onChange] handler of the separator drop-down: the choice is set
    and saved. *)
Definition onChangeSeparatorStrategy (value : SeparatorStrategy)
  (s : SettingsObject) : SettingsObject * option PluginData :=
  let s' := setSeparatorStrategy value s in
  (s', Some (saveSettings s')).

(* ------------------------------------------------------------------ *)
(** ** Values of the front matter that make [processSingleTag] throw *)

Definition isOther (e : FmElem) : bool :=
  match e with
  | ElOther => true
  | ElString _ => false
  end.

(** An array with an element that is not a string. *)
Definition holdsNonString (v : FmValue) : bool :=
  match v with
  | FmArray l => existsb isOther l
  | FmMissing | FmString _ | FmOther => false
  end.

Definition frontMatterThrows (fm : FrontMatter) : bool :=
  holdsNonString (tags fm) || holdsNonString (tag fm).

(** Does the turn of the loop of [renameTag] for this file set
    [modified]? *)
Definition rename_counts (U : UnicodeTables) (search replace : jsstring)
  (file : TFile) : bool :=
  match rename_file U search search replace file with
  | Ok (_, modified) => modified
  | Throw _ => false
  end.

(** Case strategy none, separators preserved, no removal. *)
Definition settings_change_nothing : TagLowercaseSettings :=
  {| caseStrategy := case_none; separatorStrategy := sep_preserve;
     removeSpecialChars := false; applyToNestedTags := true |}.

(** Removal of special characters and kebab separators, case untouched. *)
Definition settings_strip_kebab : TagLowercaseSettings :=
  {| caseStrategy := case_none; separatorStrategy := sep_kebab;
     removeSpecialChars := true; applyToNestedTags := true |}.

(** Data written by an earlier version: only the legacy key. *)
Definition legacyData : PluginData :=
  {| data_caseStrategy := None; data_separatorStrategy := None;
     data_removeSpecialChars := None; data_applyToNestedTags := None;
     data_snakeCase := Some true |}.

(** The second and the third document of [exampleVault]. *)
Definition exampleFileTwo : TFile :=
  {| path := str "two.md";
     frontmatter := {| tags := FmArray [ElString (str "Year"); ElOther];
                       tag := FmMissing |};
     body := str "In #Year." |}.

Definition exampleFileThree : TFile :=
  {| path := str "three.md";
     frontmatter := {| tags := FmMissing; tag := FmString (str "Last") |};
     body := str "#Last" |}.

(* ================================================================== *)
(** * Properties *)

(* ------------------------------------------------------------------ *)
(** ** Strings *)

Lemma strictEq_true_iff (a b : jsstring) : strictEq a b = true <-> a = b.
Proof.
  revert b; induction a as [|x a IH]; intros [|y b]; simpl;
    try (split; [discriminate | discriminate]); try tauto.
  rewrite andb_true_iff, N.eqb_eq, IH.
  split; [intros [-> ->]; reflexivity | intros [= -> ->]; auto].
Qed.

Lemma strictEq_refl (a : jsstring) : strictEq a a = true.
Proof. apply strictEq_true_iff; reflexivity. Qed.

Lemma strictEq_false_iff (a b : jsstring) : strictEq a b = false <-> a <> b.
Proof.
  rewrite <- strictEq_true_iff.
  destruct (strictEq a b); split; congruence.
Qed.

Lemma startsWith_true_iff (s p : jsstring) :
  startsWith s p = true <-> exists r, s = p ++ r.
Proof.
  revert s; induction p as [|y p IH]; intros s; simpl.
  - split; [intros _; exists s; reflexivity | intros _; reflexivity].
  - destruct s as [|x s].
    + split; [discriminate | intros [r Hr]; discriminate].
    + rewrite andb_true_iff, N.eqb_eq, IH.
      split.
      * intros [-> [r ->]]; exists r; reflexivity.
      * intros [r [= -> ->]]; split; [reflexivity | exists r; reflexivity].
Qed.

Lemma startsWith_app (p r : jsstring) : startsWith (p ++ r) p = true.
Proof. apply startsWith_true_iff; exists r; reflexivity. Qed.

Lemma substring_app (p r : jsstring) : substring (length p) (p ++ r) = r.
Proof.
  unfold substring. induction p as [|x p IH]; simpl; auto.
Qed.

Lemma split_not_nil (sep : codepoint) (s : jsstring) : split sep s <> [].
Proof.
  destruct s as [|c s]; simpl; [discriminate|].
  destruct (c =? sep); [discriminate|].
  destruct (split sep s); discriminate.
Qed.

(** No part of a split holds the separator. *)
Lemma split_parts_free (sep : codepoint) (s : jsstring) :
  Forall (fun p => ~ In sep p) (split sep s).
Proof.
  induction s as [|c s IH]; simpl.
  - constructor; [intros [] | constructor].
  - destruct (N.eqb_spec c sep) as [->|Hne].
    + constructor; [intros [] | exact IH].
    + destruct (split sep s) as [|p ps]; inversion IH; subst.
      * constructor; [|constructor]. intros [H|[]]; congruence.
      * constructor; [|assumption]. intros [H|H]; [congruence | contradiction].
Qed.

Lemma join_cons (sep p : jsstring) (q : jsstring) (ps : list jsstring) :
  join sep (p :: q :: ps) = p ++ sep ++ join sep (q :: ps).
Proof. reflexivity. Qed.

Lemma split_app_free (sep : codepoint) (p rest : jsstring) :
  ~ In sep p ->
  split sep (p ++ sep :: rest) = p :: split sep rest.
Proof.
  induction p as [|c p IH]; simpl; intros Hfree.
  - rewrite N.eqb_refl; reflexivity.
  - destruct (N.eqb_spec c sep) as [->|Hne]; [exfalso; auto|].
    rewrite IH by (intros H; apply Hfree; right; exact H). reflexivity.
Qed.

Lemma split_free (sep : codepoint) (p : jsstring) :
  ~ In sep p -> split sep p = [p].
Proof.
  induction p as [|c p IH]; simpl; intros Hfree; [reflexivity|].
  destruct (N.eqb_spec c sep) as [->|Hne]; [exfalso; auto|].
  rewrite IH by (intros H; apply Hfree; right; exact H). reflexivity.
Qed.

(** Joining parts that are free of the separator and splitting again gives
    the parts back. *)
Lemma split_join (sep : codepoint) (parts : list jsstring) :
  parts <> [] ->
  Forall (fun p => ~ In sep p) parts ->
  split sep (join [sep] parts) = parts.
Proof.
  induction parts as [|p ps IH]; intros Hne Hall; [congruence|].
  inversion Hall as [|? ? Hp Hps]; subst.
  destruct ps as [|q ps].
  - simpl. apply split_free; assumption.
  - rewrite join_cons.
    change (p ++ [sep] ++ join [sep] (q :: ps))
      with (p ++ sep :: join [sep] (q :: ps)).
    rewrite split_app_free by assumption.
    rewrite IH; [reflexivity | discriminate | assumption].
Qed.

Lemma join_split (sep : codepoint) (s : jsstring) :
  join [sep] (split sep s) = s.
Proof.
  induction s as [|c s IH]; [reflexivity|].
  pose proof (split_not_nil sep s) as Hn.
  cbn [split].
  destruct (N.eqb_spec c sep) as [->|Hne];
    destruct (split sep s) as [|q qs]; try congruence.
  - rewrite join_cons, IH. reflexivity.
  - destruct qs as [|q' qs].
    + cbn [join] in *. congruence.
    + rewrite join_cons in *. rewrite <- IH. reflexivity.
Qed.

(** The separators of a string are one fewer than its parts. *)
Lemma count_split (sep : codepoint) (s : jsstring) :
  S (count_occ N.eq_dec s sep) = length (split sep s).
Proof.
  induction s as [|c s IH]; simpl; [reflexivity|].
  destruct (N.eq_dec c sep) as [->|Hne].
  - rewrite N.eqb_refl. simpl. rewrite IH. reflexivity.
  - destruct (N.eqb_spec c sep) as [->|_]; [congruence|].
    destruct (split sep s); [discriminate | exact IH].
Qed.

Lemma mapIndexFrom_length {A B : Type} (f : A -> nat -> B) (i : nat)
  (l : list A) : length (mapIndexFrom f i l) = length l.
Proof. revert i; induction l; simpl; intros; auto. Qed.

Lemma mapIndexFrom_nth {A B : Type} (f : A -> nat -> B) (i k : nat)
  (l : list A) :
  nth_error (mapIndexFrom f i l) k
  = option_map (fun x => f x (i + k)%nat) (nth_error l k).
Proof.
  revert i k; induction l as [|x l IH]; intros i [|k]; simpl; auto.
  - rewrite Nat.add_0_r; reflexivity.
  - rewrite IH. rewrite Nat.add_succ_r. reflexivity.
Qed.

(* ------------------------------------------------------------------ *)
(** ** The Latin fragment satisfies what is asked of the tables *)

Ltac cp_cases :=
  repeat match goal with
         | |- context [(?a <=? ?b)%N] => destruct (N.leb_spec a b)
         | |- context [(?a =? ?b)%N] => destruct (N.eqb_spec a b)
         | H : context [(?a <=? ?b)%N] |- _ => destruct (N.leb_spec a b)
         | H : context [(?a =? ?b)%N] |- _ => destruct (N.eqb_spec a b)
         end.

Lemma flat_map_keeps_out (f : codepoint -> jsstring) (x : codepoint) :
  (forall c, In x (f c) -> c = x) ->
  forall s, ~ In x s -> ~ In x (flat_map f s).
Proof.
  intros Hf s Hs Hin. apply in_flat_map in Hin as [c [Hc Hx]].
  apply Hf in Hx. subst. contradiction.
Qed.

Lemma flat_map_idempotent (f : codepoint -> jsstring) :
  (forall c, flat_map f (f c) = f c) ->
  forall s, flat_map f (flat_map f s) = flat_map f s.
Proof.
  intros Hf s. induction s as [|c s IH]; simpl; [reflexivity|].
  rewrite flat_map_app, Hf, IH. reflexivity.
Qed.

Lemma LatinFragment_lowerOf_idempotent (c : codepoint) :
  flat_map LatinFragment.lowerOf (LatinFragment.lowerOf c)
  = LatinFragment.lowerOf c.
Proof.
  unfold LatinFragment.lowerOf, LatinFragment.isUpperAZ.
  cp_cases; cbn [flat_map app andb];
   unfold LatinFragment.lowerOf, LatinFragment.isUpperAZ.
  all: cp_cases; cbn [andb app]; subst; try reflexivity; try lia.
Qed.

Lemma LatinFragment_upperOf_idempotent (c : codepoint) :
  flat_map LatinFragment.upperOf (LatinFragment.upperOf c)
  = LatinFragment.upperOf c.
Proof.
  unfold LatinFragment.upperOf, LatinFragment.isLowerAZ.
  cp_cases; cbn [flat_map app andb];
    unfold LatinFragment.upperOf, LatinFragment.isLowerAZ.
  all: cp_cases; cbn [andb app]; subst; try reflexivity; try lia.
Qed.

Lemma LatinFragment_idempotent :
  caseConversionIdempotent LatinFragment.tables.
Proof.
  intros s; split; simpl.
  - apply flat_map_idempotent, LatinFragment_lowerOf_idempotent.
  - apply flat_map_idempotent, LatinFragment_upperOf_idempotent.
Qed.

Lemma LatinFragment_keeps_out (x : codepoint) :
  x < 0x41 \/ 0x5a < x < 0x61 ->
  caseConversionKeepsOut LatinFragment.tables x.
Proof.
  intros Hx s Hs; split; cbn [toLowerCase toUpperCase LatinFragment.tables];
    apply flat_map_keeps_out; auto; intros c.
  - unfold LatinFragment.lowerOf, LatinFragment.isUpperAZ.
    cp_cases; cbn [andb In]; intros Hin; lia.
  - unfold LatinFragment.upperOf, LatinFragment.isLowerAZ.
    cp_cases; cbn [andb In]; intros Hin; lia.
Qed.

Lemma LatinFragment_of_empty : caseConversionOfEmpty LatinFragment.tables.
Proof. split; reflexivity. Qed.

Lemma isSpace_true (c : codepoint) :
  isSpace c = true ->
  c <= 0x0d \/ c = 0x20 \/ c = 0xa0 \/ 0x1680 <= c.
Proof.
  unfold isSpace.
  rewrite !orb_true_iff, !andb_true_iff, !N.leb_le, !N.eqb_eq. lia.
Qed.

Lemma LatinFragment_space : spaceIsNotAlphanumeric LatinFragment.tables.
Proof.
  intros c Hc. apply isSpace_true in Hc.
  cbn [isLetter isNumber LatinFragment.tables].
  unfold LatinFragment.letter, LatinFragment.number,
    LatinFragment.isUpperAZ, LatinFragment.isLowerAZ.
  split; apply not_true_iff_false;
    rewrite ?orb_true_iff, ?andb_true_iff, ?N.leb_le, ?N.eqb_eq; lia.
Qed.

(* ------------------------------------------------------------------ *)
(** ** The steps of [transformSegment] *)

Lemma filter_all (f : codepoint -> bool) (s : jsstring) :
  Forall (fun c => f c = true) s -> filter f s = s.
Proof.
  induction 1 as [|c s Hc _ IH]; simpl; [reflexivity|].
  rewrite Hc, IH. reflexivity.
Qed.

Lemma filter_keeps_out (f : codepoint -> bool) (x : codepoint) (s : jsstring) :
  ~ In x s -> ~ In x (filter f s).
Proof. intros Hs Hin. apply filter_In in Hin. tauto. Qed.

Lemma replaceChar_free (a b : codepoint) (s : jsstring) :
  ~ In a s -> replaceChar a b s = s.
Proof.
  unfold replaceChar. induction s as [|c s IH]; simpl; intros Hs;
    [reflexivity|].
  destruct (N.eqb_spec c a) as [->|_]; [exfalso; auto|].
  rewrite IH by tauto. reflexivity.
Qed.

Lemma replaceChar_removes (a b : codepoint) (s : jsstring) :
  a <> b -> ~ In a (replaceChar a b s).
Proof.
  unfold replaceChar. intros Hab Hin. apply in_map_iff in Hin as [c [Hc _]].
  cbv beta in Hc.
  destruct (N.eqb_spec c a); [apply Hab; now symmetry | contradiction].
Qed.

Lemma replaceChar_keeps_out (a b x : codepoint) (s : jsstring) :
  x <> b -> ~ In x s -> ~ In x (replaceChar a b s).
Proof.
  unfold replaceChar. intros Hxb Hs Hin.
  apply in_map_iff in Hin as [c [Hc Hin]].
  cbv beta in Hc.
  destruct (N.eqb_spec c a); [apply Hxb; now symmetry | subst; contradiction].
Qed.

Lemma replaceChar_nil (a b : codepoint) : replaceChar a b [] = [].
Proof. reflexivity. Qed.

Section TransformSegmentFacts.

Variable U : UnicodeTables.

(** A character that is not a separator and that case conversion never
    introduces is not introduced by [transformSegment]. *)
Lemma transformSegment_keeps_out (x : codepoint)
  (settings : TagLowercaseSettings) (segment : jsstring) :
  caseConversionKeepsOut U x ->
  x <> hyphen -> x <> underscore ->
  ~ In x segment -> ~ In x (transformSegment U settings segment).
Proof.
  intros Hcase Hh Hu Hs. unfold transformSegment.
  assert (H1 : ~ In x (if removeSpecialChars settings
                       then removeSpecial U segment else segment)).
  { destruct (removeSpecialChars settings);
      [apply filter_keeps_out|]; assumption. }
  set (s1 := if removeSpecialChars settings then _ else _) in *.
  assert (H2 : ~ In x match separatorStrategy settings with
                      | sep_snake => replaceChar hyphen underscore s1
                      | sep_kebab => replaceChar underscore hyphen s1
                      | sep_preserve => s1
                      end).
  { destruct (separatorStrategy settings);
      [|apply replaceChar_keeps_out|apply replaceChar_keeps_out];
      assumption. }
  set (s2 := match separatorStrategy settings with
             | sep_preserve => _ | sep_snake => _ | sep_kebab => _ end) in *.
  destruct (caseStrategy settings); [apply Hcase|apply Hcase|]; assumption.
Qed.

Lemma transformSegment_nil (settings : TagLowercaseSettings) :
  caseConversionOfEmpty U -> transformSegment U settings [] = [].
Proof.
  intros [Hl Hu]. unfold transformSegment.
  destruct (removeSpecialChars settings), (separatorStrategy settings),
    (caseStrategy settings); simpl; auto.
Qed.

(** With case strategy [none] the output of [transformSegment] after the
    removal of special characters is made of kept characters. *)
Lemma transformSegment_kept_without_case (settings : TagLowercaseSettings)
  (segment : jsstring) :
  caseStrategy settings = case_none ->
  removeSpecialChars settings = true ->
  Forall (fun c => keptChar U c = true) (transformSegment U settings segment).
Proof.
  intros Hc Hr. unfold transformSegment. rewrite Hc, Hr.
  assert (H1 : Forall (fun c => keptChar U c = true) (removeSpecial U segment)).
  { apply Forall_forall. intros c Hin. apply filter_In in Hin. tauto. }
  destruct (separatorStrategy settings); [assumption| |];
    unfold replaceChar; apply Forall_map;
    (eapply Forall_impl; [|exact H1]); intros c Hk; cbv beta in *;
    match goal with
    | |- context [(c =? ?a)] => destruct (N.eqb_spec c a)
    end; auto; unfold keptChar;
    destruct (isLetter U _), (isNumber U _); reflexivity.
Qed.

End TransformSegmentFacts.

(* ------------------------------------------------------------------ *)
(** ** [transformSegment] applied twice *)

Example verify_logic_tests :
  convertTagContent LatinFragment.tables settingsVariants_kebab (str "My_Tag")
    = str "my-tag" /\
  convertTagContent LatinFragment.tables settingsVariants_kebab
    (str "Mixed_Separators-Test") = str "mixed-separators-test" /\
  convertTagContent LatinFragment.tables settingsVariants_snake (str "My-Tag")
    = str "my_tag" /\
  convertTagContent LatinFragment.tables settingsVariants_snake
    (str "Mixed_Separators-Test") = str "mixed_separators_test" /\
  convertTagContent LatinFragment.tables settingsVariants_preserve
    (str "My_Tag-Here") = str "my_tag-here".
Proof. repeat split; vm_compute; reflexivity. Qed.

Section Idempotence.

Variable U : UnicodeTables.
Hypothesis Hidem : caseConversionIdempotent U.
Hypothesis Hhyphen : caseConversionKeepsOut U hyphen.
Hypothesis Hunderscore : caseConversionKeepsOut U underscore.

(** The output of the separator step, and of the case step after it, is
    free of the separator that the strategy replaces. *)
Lemma transformSegment_separator_free (settings : TagLowercaseSettings)
  (segment : jsstring) :
  match separatorStrategy settings with
  | sep_snake => ~ In hyphen (transformSegment U settings segment)
  | sep_kebab => ~ In underscore (transformSegment U settings segment)
  | sep_preserve => True
  end.
Proof.
  unfold transformSegment.
  destruct (separatorStrategy settings); [exact I| |].
  - assert (H : ~ In hyphen (replaceChar hyphen underscore
                  (if removeSpecialChars settings
                   then removeSpecial U segment else segment)))
      by (apply replaceChar_removes; discriminate).
    destruct (caseStrategy settings); [apply Hhyphen|apply Hhyphen|]; exact H.
  - assert (H : ~ In underscore (replaceChar underscore hyphen
                  (if removeSpecialChars settings
                   then removeSpecial U segment else segment)))
      by (apply replaceChar_removes; discriminate).
    destruct (caseStrategy settings);
      [apply Hunderscore|apply Hunderscore|]; exact H.
Qed.

(** The output of [transformSegment] is a fixed point of its case step. *)
Lemma transformSegment_case_fixed (settings : TagLowercaseSettings)
  (segment : jsstring) :
  match caseStrategy settings with
  | case_lowercase => toLowerCase U (transformSegment U settings segment)
  | case_uppercase => toUpperCase U (transformSegment U settings segment)
  | case_none => transformSegment U settings segment
  end = transformSegment U settings segment.
Proof.
  unfold transformSegment.
  destruct (caseStrategy settings); [apply Hidem|apply Hidem|reflexivity].
Qed.

End Idempotence.

(** C1 (as amended): for every configuration and every input [x] such that
    remove-special-chars is off, or the case strategy is none, or
    [transformSegment x] is made only of letters, numbers, hyphens and
    underscores, [transformSegment] is idempotent:
    [transformSegment (transformSegment x) = transformSegment x].
    The Unicode tables are any tables whose case conversions are idempotent
    and introduce neither a hyphen nor an underscore. *)
Theorem transformSegment_idempotent_on_kept_output
  (U : UnicodeTables) (settings : TagLowercaseSettings) (x : jsstring) :
  caseConversionIdempotent U ->
  caseConversionKeepsOut U hyphen ->
  caseConversionKeepsOut U underscore ->
  removeSpecialChars settings = false \/
  caseStrategy settings = case_none \/
  Forall (fun c => keptChar U c = true) (transformSegment U settings x) ->
  transformSegment U settings (transformSegment U settings x)
  = transformSegment U settings x.
Proof.
  intros Hidem Hh Hu Hcases.
  assert (Hkept : removeSpecialChars settings = false \/
                  Forall (fun c => keptChar U c = true)
                    (transformSegment U settings x)).
  { destruct Hcases as [Hoff|[Hnone|Hall]]; auto.
    destruct (removeSpecialChars settings) eqn:Hrm; auto.
    right. apply transformSegment_kept_without_case; assumption. }
  clear Hcases.
  pose proof (transformSegment_separator_free U Hh Hu settings x) as Hsep.
  pose proof (transformSegment_case_fixed U Hidem settings x) as Hcase.
  set (z := transformSegment U settings x) in *.
  unfold transformSegment at 1.
  assert (H1 : (if removeSpecialChars settings then removeSpecial U z else z)
               = z).
  { destruct (removeSpecialChars settings); [|reflexivity].
    destruct Hkept as [Hf|Hall]; [discriminate|].
    apply filter_all. exact Hall. }
  rewrite H1.
  assert (H2 : match separatorStrategy settings with
               | sep_snake => replaceChar hyphen underscore z
               | sep_kebab => replaceChar underscore hyphen z
               | sep_preserve => z
               end = z).
  { destruct (separatorStrategy settings);
      [reflexivity | apply replaceChar_free | apply replaceChar_free];
      exact Hsep. }
  rewrite H2. exact Hcase.
Qed.

Lemma transformSegment_idempotent_on_kept_output_witness :
  Forall (fun c => keptChar LatinFragment.tables c = true)
    (transformSegment LatinFragment.tables settings_first_segment_only
       (str "My-Tag!")) /\
  transformSegment LatinFragment.tables settings_first_segment_only
    (transformSegment LatinFragment.tables settings_first_segment_only
       (str "My-Tag!"))
  = transformSegment LatinFragment.tables settings_first_segment_only
      (str "My-Tag!").
Proof.
  assert (Hkept : Forall (fun c => keptChar LatinFragment.tables c = true)
            (transformSegment LatinFragment.tables settings_first_segment_only
               (str "My-Tag!")))
    by (vm_compute; repeat constructor).
  split; [exact Hkept|].
  apply (transformSegment_idempotent_on_kept_output LatinFragment.tables
           settings_first_segment_only (str "My-Tag!")
           LatinFragment_idempotent
           (LatinFragment_keeps_out hyphen (or_introl eq_refl))
           (LatinFragment_keeps_out underscore
              (or_intror (conj eq_refl eq_refl)))).
  right. right. exact Hkept.
Defined.

(** C1 fails as stated: with removal of special characters and lower case,
    LATIN CAPITAL LETTER I WITH DOT ABOVE becomes [i] followed by COMBINING
    DOT ABOVE, which is not a letter; a second application removes it. *)
Lemma transformSegment_not_idempotent :
  transformSegment LatinFragment.tables settings_lowercase_strip [0x130]
    = [0x69; 0x307] /\
  transformSegment LatinFragment.tables settings_lowercase_strip
    [0x69; 0x307] = [0x69] /\
  transformSegment LatinFragment.tables settings_lowercase_strip
    (transformSegment LatinFragment.tables settings_lowercase_strip [0x130])
  <> transformSegment LatinFragment.tables settings_lowercase_strip [0x130].
Proof.
  repeat split; try (vm_compute; reflexivity).
  vm_compute. discriminate.
Qed.

(* ------------------------------------------------------------------ *)
(** ** [convertTagContent] and the segments of a tag *)

Section Segments.

Variable U : UnicodeTables.
Variable settings : TagLowercaseSettings.
Hypothesis Hslash : caseConversionKeepsOut U slash.

Lemma processedParts_free (i : nat) (parts : list jsstring) :
  Forall (fun p => ~ In slash p) parts ->
  Forall (fun p => ~ In slash p) (mapIndexFrom (convertPart U settings) i parts).
Proof.
  intros Hall. revert i. induction Hall as [|p ps Hp _ IH]; intros i; simpl;
    constructor; auto.
  unfold convertPart.
  destruct ((0 <? i)%nat && negb (applyToNestedTags settings)); [exact Hp|].
  apply transformSegment_keeps_out; auto; discriminate.
Qed.

(** Splitting the output of [convertTagContent] gives back the parts it
    joined. *)
Lemma split_convertTagContent (tagContent : jsstring) :
  split slash (convertTagContent U settings tagContent)
  = mapIndex (convertPart U settings) (split slash tagContent).
Proof.
  unfold convertTagContent.
  apply split_join.
  - pose proof (split_not_nil slash tagContent) as Hn.
    unfold mapIndex. destruct (split slash tagContent); [congruence|].
    discriminate.
  - apply processedParts_free, split_parts_free.
Qed.

Lemma nested_parts_verbatim (i : nat) (parts : list jsstring) :
  applyToNestedTags settings = false ->
  mapIndexFrom (convertPart U settings) (S i) parts = parts.
Proof.
  intros Hoff. revert i. induction parts as [|p ps IH]; intros i; simpl;
    [reflexivity|].
  rewrite IH. unfold convertPart. rewrite Hoff. reflexivity.
Qed.

Lemma convertTagContent_segments (tagContent : jsstring) :
  length (split slash (convertTagContent U settings tagContent))
  = length (split slash tagContent).
Proof.
  rewrite split_convertTagContent. apply mapIndexFrom_length.
Qed.

Lemma convertTagContent_empty_segment (tagContent : jsstring) (i : nat) :
  caseConversionOfEmpty U ->
  nth_error (split slash tagContent) i = Some [] ->
  nth_error (split slash (convertTagContent U settings tagContent)) i
  = Some [].
Proof.
  intros Hempty Hi. rewrite split_convertTagContent.
  unfold mapIndex. rewrite mapIndexFrom_nth, Hi. simpl.
  unfold convertPart.
  destruct ((0 <? i)%nat && negb (applyToNestedTags settings));
    [reflexivity|].
  rewrite transformSegment_nil by assumption. reflexivity.
Qed.

End Segments.

(** C4: for every configuration and every tag content, the output of
    [convertTagContent] (the spec's transformTag) has as many slashes and as
    many segments as the input, and a segment that is empty in the input is
    empty at the same position in the output.  The Unicode tables are any
    tables whose case conversions introduce no slash and keep the empty
    string empty. *)
Theorem convertTagContent_preserves_slashes_and_empty_segments
  (U : UnicodeTables) (settings : TagLowercaseSettings)
  (tagContent : jsstring) :
  caseConversionKeepsOut U slash ->
  caseConversionOfEmpty U ->
  count_occ N.eq_dec (convertTagContent U settings tagContent) slash
  = count_occ N.eq_dec tagContent slash /\
  length (split slash (convertTagContent U settings tagContent))
  = length (split slash tagContent) /\
  forall i,
    nth_error (split slash tagContent) i = Some [] ->
    nth_error (split slash (convertTagContent U settings tagContent)) i
    = Some [].
Proof.
  intros Hslash Hempty.
  pose proof (convertTagContent_segments U settings Hslash tagContent) as Hlen.
  split; [|split].
  - pose proof (count_split slash tagContent) as H1.
    pose proof (count_split slash (convertTagContent U settings tagContent))
      as H2.
    lia.
  - exact Hlen.
  - intros i. apply convertTagContent_empty_segment; assumption.
Qed.

Lemma convertTagContent_preserves_slashes_and_empty_segments_witness :
  count_occ N.eq_dec
    (convertTagContent LatinFragment.tables settings_first_segment_only
       (str "/My-Tag//Sub Tag/"))
    slash = 4%nat /\
  nth_error
    (split slash
       (convertTagContent LatinFragment.tables settings_first_segment_only
          (str "/My-Tag//Sub Tag/"))) 2 = Some [].
Proof.
  destruct (convertTagContent_preserves_slashes_and_empty_segments
              LatinFragment.tables settings_first_segment_only
              (str "/My-Tag//Sub Tag/")
              (LatinFragment_keeps_out slash (or_introl eq_refl))
              LatinFragment_of_empty) as [Hcount [_ Hempty]].
  split.
  - rewrite Hcount. reflexivity.
  - apply Hempty. reflexivity.
Defined.

(** C5: for every configuration with apply-to-nested off and every tag
    content, the segments of the output of [convertTagContent] are the
    transformed segment 0 followed by the segments 1, 2, ... of the input,
    unchanged.  The Unicode tables are any tables whose case conversions
    introduce no slash. *)
Theorem convertTagContent_nested_off_keeps_later_segments
  (U : UnicodeTables) (settings : TagLowercaseSettings)
  (tagContent first second : jsstring) (others : list jsstring) :
  caseConversionKeepsOut U slash ->
  applyToNestedTags settings = false ->
  split slash tagContent = first :: second :: others ->
  split slash (convertTagContent U settings tagContent)
  = transformSegment U settings first :: second :: others.
Proof.
  intros Hslash Hoff Hsplit.
  rewrite split_convertTagContent by exact Hslash. rewrite Hsplit.
  unfold mapIndex.
  change (mapIndexFrom (convertPart U settings) 0 (first :: second :: others))
    with (convertPart U settings first 0
          :: mapIndexFrom (convertPart U settings) 1 (second :: others)).
  rewrite nested_parts_verbatim by exact Hoff.
  reflexivity.
Qed.

Lemma convertTagContent_nested_off_keeps_later_segments_witness :
  split slash (str "My-Tag/Sub-Tag/Leaf!")
  = [str "My-Tag"; str "Sub-Tag"; str "Leaf!"] /\
  split slash
    (convertTagContent LatinFragment.tables settings_first_segment_only
       (str "My-Tag/Sub-Tag/Leaf!"))
  = [transformSegment LatinFragment.tables settings_first_segment_only
       (str "My-Tag"); str "Sub-Tag"; str "Leaf!"] /\
  transformSegment LatinFragment.tables settings_first_segment_only
    (str "My-Tag") = str "my_tag".
Proof.
  split; [reflexivity|]. split; [|reflexivity].
  apply (convertTagContent_nested_off_keeps_later_segments
           LatinFragment.tables settings_first_segment_only
           (str "My-Tag/Sub-Tag/Leaf!") (str "My-Tag") (str "Sub-Tag")
           [str "Leaf!"]
           (LatinFragment_keeps_out slash (or_introl eq_refl))
           eq_refl eq_refl).
Defined.

(* ------------------------------------------------------------------ *)
(** ** The pattern of the rename path *)

Lemma isSyntaxChar_backslash (c : codepoint) :
  isSyntaxChar c = false -> (c =? backslash) = false.
Proof.
  unfold isSyntaxChar, backslash. intros H.
  repeat (apply orb_false_iff in H; destruct H as [H ?]). assumption.
Qed.

(** The escaped search term is a plain literal, and it stands for the search
    term, whatever characters the search term is made of. *)
Lemma patternLiteral_escapeRegExp (search : jsstring) :
  patternLiteral (escapeRegExp search) = Some search.
Proof.
  induction search as [|c search IH]; [reflexivity|].
  unfold escapeRegExp in *. cbn [flat_map].
  destruct (isSyntaxChar c) eqn:Hc; cbn [app patternLiteral].
  - rewrite N.eqb_refl, Hc. cbn [orb]. rewrite IH. reflexivity.
  - rewrite (isSyntaxChar_backslash c Hc), Hc, IH. reflexivity.
Qed.

Lemma newTagRegExp_escapeRegExp (search : jsstring) :
  newTagRegExp (escapeRegExp search) = Ok search.
Proof.
  unfold newTagRegExp. rewrite patternLiteral_escapeRegExp. reflexivity.
Qed.

(* ------------------------------------------------------------------ *)
(** ** Stepping through [replaceFrom] *)

Section ReplaceFacts.

Context {G St : Type}.
Variable exec : bool -> jsstring -> option (nat * G).
Variable replacer : G -> St -> jsstring * St.

Lemma replaceFrom_skip (skipped data : jsstring) (st : St) :
  replaceFrom exec replacer (length skipped) false (skipped ++ data) st
  = replaceFrom exec replacer 0 false data st.
Proof.
  induction skipped as [|c skipped IH]; [reflexivity|]. exact IH.
Qed.

(** Where the expression matches nowhere in [copied], [copied] is copied. *)
Lemma replaceFrom_copy (copied data : jsstring) (st : St) :
  (forall before after,
      copied = before ++ after -> after <> [] ->
      exec false (after ++ data) = None) ->
  replaceFrom exec replacer 0 false (copied ++ data) st
  = (copied ++ fst (replaceFrom exec replacer 0 false data st),
     snd (replaceFrom exec replacer 0 false data st)).
Proof.
  induction copied as [|c copied IH]; intros Hnone.
  - simpl. destruct (replaceFrom exec replacer 0 false data st); reflexivity.
  - pose proof (Hnone [] (c :: copied) eq_refl) as Hc.
    cbn [app replaceFrom] in *.
    rewrite Hc by discriminate.
    rewrite IH.
    + reflexivity.
    + intros before after Heq Hne.
      apply (Hnone (c :: before) after); [rewrite Heq; reflexivity | exact Hne].
Qed.

End ReplaceFacts.

(* ------------------------------------------------------------------ *)
(** ** The rename path: where the pattern matches *)

Lemma isSpace_not_hash (w : codepoint) :
  isSpace w = true -> (w =? hash) = false.
Proof.
  intros Hw. apply isSpace_true in Hw. apply N.eqb_neq. unfold hash. lia.
Qed.

Section RenameFacts.

Variable U : UnicodeTables.

Lemma tagAfterBoundary_hash (literal pre text : jsstring) :
  tagAfterBoundary U literal pre (hash :: text)
  = if startsWith text literal && lookahead U (skipn (length literal) text)
    then Some ((length pre + 1 + length literal)%nat,
               {| prefix := pre; hashGroup := [hash];
                  capturedTag := literal |})
    else None.
Proof. unfold tagAfterBoundary. rewrite N.eqb_refl. reflexivity. Qed.

(** At the start of the text, on a marker. *)
Lemma tagRegex_at_start (literal text : jsstring) :
  tagRegex U literal true (hash :: text)
  = tagAfterBoundary U literal [] (hash :: text).
Proof.
  unfold tagRegex.
  destruct (tagAfterBoundary U literal [] (hash :: text)) as [m|];
    reflexivity.
Qed.

(** On a white space character, at the start of the text or further. *)
Lemma tagRegex_on_space (literal text : jsstring) (w : codepoint)
  (atStart : bool) :
  isSpace w = true ->
  tagRegex U literal atStart (w :: text) = tagAfterBoundary U literal [w] text.
Proof.
  intros Hw. unfold tagRegex. rewrite Hw.
  destruct atStart; [|reflexivity].
  unfold tagAfterBoundary at 1. rewrite (isSpace_not_hash w Hw). reflexivity.
Qed.

(** Past the start of the text a match begins with a white space. *)
Lemma tagRegex_off_space (literal text : jsstring) (c : codepoint) :
  isSpace c = false -> tagRegex U literal false (c :: text) = None.
Proof. intros Hc. unfold tagRegex. rewrite Hc. reflexivity. Qed.

Lemma rename_body_at_start (search replace post : jsstring) (modified : bool) :
  lookahead U post = true ->
  rename_body U search replace (hash :: search ++ post) modified
  = (hash :: replace ++ fst (renameRest U search replace post),
     snd (renameRest U search replace post)).
Proof.
  intros Hla. unfold rename_body, replaceGlobal.
  cbn [replaceFrom]. rewrite tagRegex_at_start, tagAfterBoundary_hash.
  rewrite startsWith_app.
  change (skipn (length search) (search ++ post))
    with (substring (length search) (search ++ post)).
  rewrite substring_app, Hla. cbn [andb length Nat.add rename_replacer].
  cbn [prefix hashGroup app].
  rewrite replaceFrom_skip. fold (renameRest U search replace post).
  destruct (renameRest U search replace post); reflexivity.
Qed.

Lemma rename_from_space (search replace post : jsstring) (w : codepoint)
  (atStart modified : bool) :
  isSpace w = true ->
  lookahead U post = true ->
  replaceFrom (tagRegex U search) (rename_replacer replace) 0 atStart
    (w :: hash :: search ++ post) modified
  = (w :: hash :: replace ++ fst (renameRest U search replace post),
     snd (renameRest U search replace post)).
Proof.
  intros Hw Hla.
  cbn [replaceFrom]. rewrite (tagRegex_on_space _ _ _ _ Hw).
  rewrite tagAfterBoundary_hash, startsWith_app.
  change (skipn (length search) (search ++ post))
    with (substring (length search) (search ++ post)).
  rewrite substring_app, Hla. cbn [andb length Nat.add rename_replacer].
  cbn [prefix hashGroup app].
  rewrite replaceFrom_skip.
  fold (renameRest U search replace post).
  destruct (renameRest U search replace post); reflexivity.
Qed.

(** Text without white space holds no further match. *)
Lemma renameRest_copy (search replace copied data : jsstring) :
  Forall (fun c => isSpace c = false) copied ->
  renameRest U search replace (copied ++ data)
  = (copied ++ fst (renameRest U search replace data),
     snd (renameRest U search replace data)).
Proof.
  intros Hcopied. unfold renameRest. apply replaceFrom_copy.
  intros before after Heq Hne.
  destruct after as [|c after]; [congruence|].
  apply tagRegex_off_space.
  rewrite Heq in Hcopied. apply Forall_app in Hcopied as [_ Hafter].
  inversion Hafter; assumption.
Qed.

End RenameFacts.

(* ------------------------------------------------------------------ *)
(** ** The match rule *)

Lemma specMatchRule_iff (search raw : jsstring) :
  specMatchRule search raw <->
  strictEq raw search || startsWith raw (search ++ [slash]) = true.
Proof.
  unfold specMatchRule.
  rewrite orb_true_iff, strictEq_true_iff, startsWith_true_iff.
  split; (intros [H|[rest H]]; [left; exact H | right; exists rest]);
    rewrite H, <- ?app_assoc; reflexivity.
Qed.

(** The marker is stripped as the source strips it. *)
Lemma markerStripped_eq (t : jsstring) :
  markerStripped t = if startsWith t [hash] then substring 1 t else t.
Proof.
  destruct t as [|c t]; [reflexivity|]. simpl.
  destruct (c =? hash); reflexivity.
Qed.

(** In the metadata the callback sets [modified] when the rule holds, and
    only then. *)
Lemma rename_processSingleTag_modified (search replace t : jsstring) :
  (exists out, rename_processSingleTag search replace t false = Ok (out, true))
  <-> specMatchRule search (markerStripped t).
Proof.
  rewrite specMatchRule_iff, markerStripped_eq.
  unfold rename_processSingleTag.
  destruct (strictEq _ search); [split; eauto|].
  destruct (startsWith _ (search ++ [slash])); [split; eauto|].
  simpl. split; [intros [out H]; discriminate | discriminate].
Qed.

Section MatchRuleInBody.

Variable U : UnicodeTables.
Hypothesis Hspace : spaceIsNotAlphanumeric U.

(** What it means for the inline tag pattern of [processFile] to take
    exactly [raw] from [raw ++ post]. *)
Lemma tagRun_exact (raw post : jsstring) :
  tagRun U (raw ++ post) = raw ->
  Forall (fun c => tagBodyChar U c = true) raw /\
  match post with
  | [] => True
  | c :: _ => tagBodyChar U c = false
  end.
Proof.
  induction raw as [|c raw IH]; cbn [app tagRun].
  - intros H. split; [constructor|].
    destruct post as [|c post]; [exact I|].
    cbn [tagRun] in H. destruct (tagBodyChar U c); [discriminate|reflexivity].
  - destruct (tagBodyChar U c) eqn:Hc; [|discriminate].
    intros [= H]. destruct (IH H) as [Hraw Hpost].
    split; [constructor; assumption | assumption].
Qed.

(** A search term made of tag body characters that is found at the front of
    [raw ++ post] lies within [raw]. *)
Lemma search_within_tag (search raw post r : jsstring) :
  Forall (fun c => tagBodyChar U c = true) search ->
  match post with
  | [] => True
  | c :: _ => tagBodyChar U c = false
  end ->
  raw ++ post = search ++ r ->
  exists r', raw = search ++ r' /\ r = r' ++ post.
Proof.
  intros Hsearch Hpost. revert raw.
  induction Hsearch as [|c search Hc _ IH]; intros raw Heq.
  - exists raw. split; [reflexivity | symmetry; exact Heq].
  - destruct raw as [|c' raw]; cbn [app] in Heq.
    + destruct post as [|d post]; [discriminate|].
      injection Heq as -> _. congruence.
    + injection Heq as -> Heq. destruct (IH raw Heq) as [r' [-> ->]].
      exists r'. split; reflexivity.
Qed.

Lemma lookahead_after_tag (post : jsstring) :
  match post with
  | [] => True
  | c :: _ => tagBodyChar U c = false
  end ->
  lookahead U post = true.
Proof.
  destruct post as [|c post]; [reflexivity|]. unfold tagBodyChar, lookahead.
  intros H. apply orb_false_iff in H as [H _]. rewrite H.
  rewrite orb_true_r. reflexivity.
Qed.

Lemma lookahead_inside_tag (c : codepoint) (rest : jsstring) :
  tagBodyChar U c = true ->
  lookahead U (c :: rest) = true -> c = slash.
Proof.
  unfold tagBodyChar, lookahead. intros Hbody Hla.
  destruct (N.eqb_spec c slash) as [|Hne]; [assumption|exfalso].
  rewrite orb_false_r in Hbody. rewrite Hbody in Hla.
  rewrite orb_false_r in Hla. cbn [negb] in Hla. rewrite orb_false_r in Hla.
  destruct (Hspace c Hla) as [Hl Hn]. rewrite Hl, Hn in Hbody.
  cbn [orb] in Hbody. apply isSpace_true in Hla.
  apply orb_true_iff in Hbody as [H|H]; apply N.eqb_eq in H; subst c;
    unfold underscore, hyphen in Hla; lia.
Qed.

(** At an inline tag of body [raw], the pattern of the rename path matches
    after the marker exactly when the rule holds. *)
Lemma tagAfterBoundary_rule (search pre raw post : jsstring) :
  Forall (fun c => tagBodyChar U c = true) search ->
  tagRun U (raw ++ post) = raw ->
  tagAfterBoundary U search pre (hash :: raw ++ post) <> None
  <-> specMatchRule search raw.
Proof.
  intros Hsearch Hrun. apply tagRun_exact in Hrun as [Hraw Hpost].
  rewrite tagAfterBoundary_hash. split.
  - destruct (startsWith (raw ++ post) search) eqn:Hstart;
      [|cbn [andb]; intros H; exfalso; apply H; reflexivity].
    apply startsWith_true_iff in Hstart as [r Hr].
    destruct (search_within_tag search raw post r Hsearch Hpost Hr)
      as [r' [-> ->]].
    rewrite <- app_assoc.
    change (skipn (length search) (search ++ r' ++ post))
      with (substring (length search) (search ++ r' ++ post)).
    rewrite substring_app. cbn [andb].
    destruct r' as [|c r'].
    + intros _. left. rewrite app_nil_r. reflexivity.
    + destruct (lookahead U ((c :: r') ++ post)) eqn:Hla;
        [|intros H; exfalso; apply H; reflexivity].
      intros _. right. exists r'.
      apply Forall_app in Hraw as [_ Hr']. inversion Hr'; subst.
      rewrite (lookahead_inside_tag c (r' ++ post)); auto.
  - intros [->|[rest ->]].
    + rewrite startsWith_app.
      change (skipn (length search) (search ++ post))
        with (substring (length search) (search ++ post)).
      rewrite substring_app, lookahead_after_tag by assumption.
      discriminate.
    + rewrite <- app_assoc, startsWith_app.
      change (skipn (length search) (search ++ (slash :: rest) ++ post))
        with (substring (length search) (search ++ (slash :: rest) ++ post)).
      rewrite substring_app. discriminate.
Qed.

End MatchRuleInBody.

(** C2 (as amended): in the structured metadata, for every search term and
    every tag value, the rename treats the value as a match if and only if
    the value, its marker stripped, equals the search term or starts with
    the search term followed by a slash.  In the body the same holds at
    every inline tag, at the start of the text or after a white space, when
    the search term is made only of tag body characters (letters, numbers,
    underscore, hyphen, slash). *)
Theorem rename_match_rule
  (U : UnicodeTables) (search replace : jsstring) :
  spaceIsNotAlphanumeric U ->
  (forall t,
      (exists out,
          rename_processSingleTag search replace t false = Ok (out, true))
      <-> specMatchRule search (markerStripped t)) /\
  newTagRegExp (escapeRegExp search) = Ok search /\
  (Forall (fun c => tagBodyChar U c = true) search ->
   forall raw post,
     tagRun U (raw ++ post) = raw ->
     (tagRegex U search true (hash :: raw ++ post) <> None
      <-> specMatchRule search raw) /\
     (forall w atStart,
         isSpace w = true ->
         tagRegex U search atStart (w :: hash :: raw ++ post) <> None
         <-> specMatchRule search raw)).
Proof.
  intros Hspace. split; [|split].
  - intros t. apply rename_processSingleTag_modified.
  - apply newTagRegExp_escapeRegExp.
  - intros Hsearch raw post Hrun. split.
    + rewrite tagRegex_at_start.
      apply tagAfterBoundary_rule; assumption.
    + intros w atStart Hw. rewrite (tagRegex_on_space U _ _ _ _ Hw).
      apply tagAfterBoundary_rule; assumption.
Qed.

Lemma rename_match_rule_witness :
  spaceIsNotAlphanumeric LatinFragment.tables /\
  Forall (fun c => tagBodyChar LatinFragment.tables c = true) (str "tag") /\
  tagRun LatinFragment.tables (str "tag/child" ++ str " and more")
  = str "tag/child" /\
  (tagRegex LatinFragment.tables (str "tag") true
     (hash :: str "tag/child" ++ str " and more") <> None
   <-> specMatchRule (str "tag") (str "tag/child")).
Proof.
  assert (Hsearch : Forall (fun c => tagBodyChar LatinFragment.tables c = true)
                      (str "tag")) by (repeat constructor).
  split; [exact LatinFragment_space|]. split; [exact Hsearch|].
  split; [reflexivity|].
  destruct (rename_match_rule LatinFragment.tables (str "tag") (str "new")
              LatinFragment_space) as [_ [_ Hbody]].
  exact (proj1 (Hbody Hsearch (str "tag/child") (str " and more") eq_refl)).
Defined.

(** The instance of the specification: the search term [tag] matches [tag]
    and [tag/child] and does not match [tagging], in the metadata and in the
    body. *)
Example rename_tag_tagging :
  rename_processSingleTag (str "tag") (str "new") (str "tag") false
    = Ok (str "new", true) /\
  rename_processSingleTag (str "tag") (str "new") (str "#tag/child") false
    = Ok (str "#new/child", true) /\
  rename_processSingleTag (str "tag") (str "new") (str "tagging") false
    = Ok (str "tagging", false) /\
  rename_body LatinFragment.tables (str "tag") (str "new")
    (str "#tag #tag/child #tagging #tag-x #tag.") false
    = (str "#new #new/child #tagging #tag-x #new.", true).
Proof. repeat split; vm_compute; reflexivity. Qed.

(** C2 fails as stated, for a search term that is not made of tag body
    characters: in the text [#a.b] the inline tag is [a], which neither
    equals the search term [a.b] nor starts with [a.b/], and the rename
    matches there and rewrites the text to [#x]. *)
Lemma rename_match_rule_fails_for_other_searches :
  inlineTagRegex LatinFragment.tables true (str "#a.b")
    = Some (2%nat, ([], str "#a")) /\
  tagRun LatinFragment.tables (str "a" ++ str ".b") = str "a" /\
  ~ specMatchRule (str "a.b") (str "a") /\
  newTagRegExp (escapeRegExp (str "a.b")) = Ok (str "a.b") /\
  tagRegex LatinFragment.tables (str "a.b") true (hash :: str "a" ++ str ".b")
    <> None /\
  rename_body LatinFragment.tables (str "a.b") (str "x") (str "#a.b") false
    = (str "#x", true).
Proof.
  split; [reflexivity|]. split; [reflexivity|]. split.
  { rewrite specMatchRule_iff. vm_compute. discriminate. }
  split; [reflexivity|]. split; [vm_compute; discriminate | reflexivity].
Qed.

(* ------------------------------------------------------------------ *)
(** ** What the rename writes *)

Lemma lookahead_slash (U : UnicodeTables) (rest : jsstring) :
  lookahead U (slash :: rest) = true.
Proof. unfold lookahead. rewrite N.eqb_refl, orb_true_r. reflexivity. Qed.

Lemma nested_is_not_exact (search rest : jsstring) :
  strictEq (search ++ slash :: rest) search = false.
Proof.
  apply strictEq_false_iff. intros H.
  apply (f_equal (@length codepoint)) in H.
  rewrite length_app in H. simpl in H. lia.
Qed.

Lemma rename_processSingleTag_exact (search replace t : jsstring)
  (modified : bool) :
  markerStripped t = search ->
  rename_processSingleTag search replace t modified
  = Ok ((if startsWith t [hash] then [hash] else []) ++ replace, true).
Proof.
  rewrite markerStripped_eq. intros Hraw.
  unfold rename_processSingleTag. rewrite Hraw, strictEq_refl.
  destruct (startsWith t [hash]); reflexivity.
Qed.

Lemma rename_processSingleTag_nested (search replace t : jsstring)
  (modified : bool) :
  startsWith (markerStripped t) (search ++ [slash]) = true ->
  rename_processSingleTag search replace t modified
  = Ok ((if startsWith t [hash] then [hash] else [])
        ++ replace ++ substring (length search) (markerStripped t), true).
Proof.
  rewrite markerStripped_eq. intros Hraw.
  unfold rename_processSingleTag. rewrite Hraw.
  apply startsWith_true_iff in Hraw as [rest Hraw].
  rewrite <- app_assoc in Hraw. rewrite Hraw.
  cbn [app]. rewrite nested_is_not_exact.
  destruct (startsWith t [hash]); reflexivity.
Qed.

(** C3: for every rename request and every tag value that starts with the
    search term followed by a slash, the rename produces the replacement
    followed by the suffix of the value from position [length search].  In
    the metadata the marker of the value is kept.  In the body, at the start
    of the text or after a white space, the marker and the search term are
    replaced and the rest of the nested path (which, as part of a tag, holds
    no white space) stays as it is, whatever follows it. *)
Theorem rename_nested_keeps_suffix
  (U : UnicodeTables) (search replace : jsstring) :
  (forall t modified,
      startsWith (markerStripped t) (search ++ [slash]) = true ->
      rename_processSingleTag search replace t modified
      = Ok ((if startsWith t [hash] then [hash] else [])
            ++ replace ++ substring (length search) (markerStripped t),
            true)) /\
  (forall raw post modified,
      startsWith raw (search ++ [slash]) = true ->
      Forall (fun c => isSpace c = false) raw ->
      rename_body U search replace (hash :: raw ++ post) modified
      = (hash :: replace ++ substring (length search) raw
           ++ fst (renameRest U search replace post),
         snd (renameRest U search replace post)) /\
      forall w atStart,
        isSpace w = true ->
        replaceFrom (tagRegex U search) (rename_replacer replace) 0 atStart
          (w :: hash :: raw ++ post) modified
        = (w :: hash :: replace ++ substring (length search) raw
             ++ fst (renameRest U search replace post),
           snd (renameRest U search replace post))).
Proof.
  split.
  - intros t modified. apply rename_processSingleTag_nested.
  - intros raw post modified Hnested Hraw.
    apply startsWith_true_iff in Hnested as [rest ->].
    rewrite <- !app_assoc in *. rewrite substring_app.
    apply Forall_app in Hraw as [_ Hrest].
    pose proof (renameRest_copy U search replace _ post Hrest) as Hcopy.
    cbn [app] in *. split.
    + rewrite rename_body_at_start by apply lookahead_slash.
      rewrite Hcopy. reflexivity.
    + intros w atStart Hw.
      rewrite rename_from_space by (auto using lookahead_slash).
      rewrite Hcopy. reflexivity.
Qed.

Lemma rename_nested_keeps_suffix_witness :
  rename_processSingleTag (str "old") (str "new") (str "#old/sub/leaf") false
    = Ok (str "#new/sub/leaf", true) /\
  rename_body LatinFragment.tables (str "old") (str "new")
    (str "#old/sub/leaf, and more") false
    = (str "#new/sub/leaf, and more", true).
Proof.
  destruct (rename_nested_keeps_suffix LatinFragment.tables
              (str "old") (str "new")) as [Hmeta Hbody].
  split.
  - exact (Hmeta (str "#old/sub/leaf") false eq_refl).
  - assert (Hraw : Forall (fun c => isSpace c = false) (str "old/sub/leaf"))
      by (repeat constructor).
    exact (proj1 (Hbody (str "old/sub/leaf") (str ", and more") false
                    eq_refl Hraw)).
Defined.

(** C10: for every rename request the replacement is inserted into the body
    as it is, character for character, whatever characters it is made of:
    where the pattern matches, at the start of the text or after a white
    space, the marker and the search term are replaced by the marker and the
    replacement.  The search term is matched as a literal, whatever
    characters it is made of. *)
Theorem rename_inserts_replacement_verbatim
  (U : UnicodeTables) (search replace : jsstring) :
  newTagRegExp (escapeRegExp search) = Ok search /\
  (forall post modified,
      lookahead U post = true ->
      rename_body U search replace (hash :: search ++ post) modified
      = (hash :: replace ++ fst (renameRest U search replace post),
         snd (renameRest U search replace post))) /\
  (forall w post atStart modified,
      isSpace w = true ->
      lookahead U post = true ->
      replaceFrom (tagRegex U search) (rename_replacer replace) 0 atStart
        (w :: hash :: search ++ post) modified
      = (w :: hash :: replace ++ fst (renameRest U search replace post),
         snd (renameRest U search replace post))).
Proof.
  split; [apply newTagRegExp_escapeRegExp|]. split.
  - intros post modified. apply rename_body_at_start.
  - intros w post atStart modified. apply rename_from_space.
Qed.

Lemma rename_inserts_replacement_verbatim_witness :
  newTagRegExp (escapeRegExp (str "c++")) = Ok (str "c++") /\
  rename_body LatinFragment.tables (str "c++") (str "$&$1\*") (str "#c++ x")
    false
  = (str "#$&$1\* x", true).
Proof.
  destruct (rename_inserts_replacement_verbatim LatinFragment.tables
              (str "c++") (str "$&$1\*")) as [Hre [Hstart _]].
  split; [exact Hre|].
  exact (Hstart (str " x") false eq_refl).
Defined.

(* ------------------------------------------------------------------ *)
(** ** [renameTag] on a vault *)

(** C8: for every rename request whose old tag or new tag is empty once an
    optional leading marker is stripped, [renameTag] returns before the
    loop over the files: the vault is unchanged, no event reads or writes a
    document, no exception is raised, and the one notice asks for both
    tags. *)
Theorem renameTag_rejects_empty_input
  (U : UnicodeTables) (oldTag newTag : jsstring) (files : list TFile) :
  markerStripped oldTag = [] \/ markerStripped newTag = [] ->
  renameTag U oldTag newTag files
  = (files, [GetMarkdownFiles; NewNotice ProvideBothTags], None) /\
  forall vault' events exn,
    renameTag U oldTag newTag files = (vault', events, exn) ->
    vault' = files /\
    Forall (fun e => touchesDocument e = false) events /\
    exn = None.
Proof.
  intros Hempty.
  assert (Hrun : renameTag U oldTag newTag files
                 = (files, [GetMarkdownFiles; NewNotice ProvideBothTags],
                    None)).
  { unfold renameTag. rewrite <- !markerStripped_eq.
    destruct Hempty as [-> | ->]; [reflexivity|].
    destruct (markerStripped oldTag); reflexivity. }
  split; [exact Hrun|].
  intros vault' events exn Heq. rewrite Hrun in Heq.
  injection Heq as <- <- <-.
  repeat split; repeat constructor.
Qed.

Lemma renameTag_rejects_empty_input_witness :
  markerStripped (str "#") = [] /\
  renameTag LatinFragment.tables (str "#") (str "#fixed")
    [{| path := str "note.md";
        frontmatter := {| tags := FmArray [ElString (str "#Typo")];
                          tag := FmMissing |};
        body := str "see # and #Typo" |}]
  = ([{| path := str "note.md";
         frontmatter := {| tags := FmArray [ElString (str "#Typo")];
                           tag := FmMissing |};
         body := str "see # and #Typo" |}],
     [GetMarkdownFiles; NewNotice ProvideBothTags], None).
Proof.
  split; [reflexivity|].
  exact (proj1 (renameTag_rejects_empty_input LatinFragment.tables
                  (str "#") (str "#fixed") _ (or_introl eq_refl))).
Defined.

(** The two rename scenarios of the specification. *)
Example renameTag_scenarios :
  renameTag LatinFragment.tables (str "brwoser") (str "#browser")
    [{| path := str "a.md";
        frontmatter := {| tags := FmMissing; tag := FmMissing |};
        body := str "see #brwoser/history for info" |}]
  = ([{| path := str "a.md";
         frontmatter := {| tags := FmMissing; tag := FmMissing |};
         body := str "see #browser/history for info" |}],
     [GetMarkdownFiles; NewNotice (Renaming (str "brwoser") (str "browser"));
      ProcessFrontMatter (str "a.md"); Process (str "a.md");
      NewNotice (RenamedIn 1)],
     None) /\
  renameTag LatinFragment.tables (str "Typo") (str "Fixed")
    [{| path := str "b.md";
        frontmatter := {| tags := FmArray [ElString (str "#Typo");
                                           ElString (str "other")];
                          tag := FmMissing |};
        body := [] |}]
  = ([{| path := str "b.md";
         frontmatter := {| tags := FmArray [ElString (str "#Fixed");
                                            ElString (str "other")];
                           tag := FmMissing |};
         body := [] |}],
     [GetMarkdownFiles; NewNotice (Renaming (str "Typo") (str "Fixed"));
      ProcessFrontMatter (str "b.md"); Process (str "b.md");
      NewNotice (RenamedIn 1)],
     None).
Proof. split; vm_compute; reflexivity. Qed.

(* ------------------------------------------------------------------ *)
(** ** [runConversion] *)

Section DriverFacts.

Variable processFile_ : TFile -> Outcome.

(** The events of one turn of the loop. *)
Lemma runConversion_loop_spec (files : list TFile) (processedCount : nat) :
  runConversion_loop processFile_ files processedCount
  = (List.map (fun file => fileAfter (processFile_ file)) files,
     flat_map (fun file =>
                 accesses (processFile_ file)
                 ++ (if processedWithoutException processFile_ file then []
                     else [ConsoleError (path file)]))
       files,
     (processedCount
      + length (filter (processedWithoutException processFile_) files))%nat).
Proof.
  revert processedCount.
  induction files as [|file files IH]; intros n;
    cbn [runConversion_loop List.map filter flat_map].
  - rewrite Nat.add_0_r. reflexivity.
  - unfold processedWithoutException at 1 3.
    destruct (thrown (processFile_ file)) as [e|]; rewrite IH.
    + rewrite <- app_assoc. reflexivity.
    + cbn [length]. rewrite Nat.add_succ_r, app_nil_r. reflexivity.
Qed.

End DriverFacts.

(** C9: in [runConversion] an exception of [processFile] on one document is
    caught in the loop: every document of the collection is processed, in
    order, whatever happened to the documents before it; each failure is
    logged; and the count in the final notice is the number of documents
    whose processing raised no exception.  This holds for every way of
    processing one file, that of the plugin among them. *)
Theorem runConversion_counts_documents_without_exception
  (processFile_ : TFile -> Outcome) (files : list TFile) :
  runConversionWith processFile_ files
  = (List.map (fun file => fileAfter (processFile_ file)) files,
     GetMarkdownFiles :: NewNotice (StartingConversion (length files))
       :: flat_map (fun file =>
                      accesses (processFile_ file)
                      ++ (if processedWithoutException processFile_ file
                          then []
                          else [ConsoleError (path file)]))
            files
       ++ [NewNotice
             (CompletedProcessed
                (length
                   (filter (processedWithoutException processFile_) files)))]).
Proof.
  unfold runConversionWith. rewrite runConversion_loop_spec. reflexivity.
Qed.

(** In the second document an element of [tags] is not a string:
    [t.startsWith] raises a TypeError, the document is left as it was, and
    the third document is converted all the same. *)
Example runConversion_exampleVault :
  processFile LatinFragment.tables DEFAULT_SETTINGS
    {| path := str "two.md";
       frontmatter := {| tags := FmArray [ElString (str "Year"); ElOther];
                         tag := FmMissing |};
       body := str "In #Year." |}
  = {| fileAfter :=
         {| path := str "two.md";
            frontmatter := {| tags := FmArray [ElString (str "Year"); ElOther];
                              tag := FmMissing |};
            body := str "In #Year." |};
       accesses := [ProcessFrontMatter (str "two.md")];
       thrown := Some TypeError |} /\
  runConversion LatinFragment.tables DEFAULT_SETTINGS exampleVault
  = ([ {| path := str "one.md";
          frontmatter := {| tags := FmArray [ElString (str "#my-tag")];
                            tag := FmMissing |};
          body := str "About #my-tag/sub." |};
       {| path := str "two.md";
          frontmatter := {| tags := FmArray [ElString (str "Year"); ElOther];
                            tag := FmMissing |};
          body := str "In #Year." |};
       {| path := str "three.md";
          frontmatter := {| tags := FmMissing; tag := FmString (str "last") |};
          body := str "#last" |} ],
     [GetMarkdownFiles; NewNotice (StartingConversion 3);
      ProcessFrontMatter (str "one.md"); Process (str "one.md");
      ProcessFrontMatter (str "two.md"); ConsoleError (str "two.md");
      ProcessFrontMatter (str "three.md"); Process (str "three.md");
      NewNotice (CompletedProcessed 2)]).
Proof. split; vm_compute; reflexivity. Qed.

(* ------------------------------------------------------------------ *)
(** ** [updateStats] *)

Section EnumerationFacts.

Variable U : UnicodeTables.
Variable cfg : TagLowercaseSettings.

(** Would the bulk conversion change this tag? *)
Lemma countAffected_fold (uniqueTags : list jsstring) (n : nat) :
  fold_left (fun affectedCount tag =>
               let raw := substring 1 tag in
               let converted := convertTagContent U cfg raw in
               if negb (strictEq raw converted) then S affectedCount
               else affectedCount)
            uniqueTags n
  = (n + length (filter (fun tag =>
                           negb (strictEq (substring 1 tag)
                                   (convertTagContent U cfg
                                      (substring 1 tag))))
                        uniqueTags))%nat.
Proof.
  revert n. induction uniqueTags as [|tag l IH]; intros n; cbn [fold_left filter].
  - rewrite Nat.add_0_r. reflexivity.
  - rewrite IH. cbv zeta.
    destruct (negb (strictEq _ _)); cbn [length]; lia.
Qed.

Lemma substring_marker (tag : jsstring) :
  startsWith tag [hash] = true -> substring 1 tag = markerStripped tag.
Proof. intros H. rewrite markerStripped_eq, H. reflexivity. Qed.

Lemma countAffected_spec (uniqueTags : list jsstring) :
  Forall (fun tag => startsWith tag [hash] = true) uniqueTags ->
  countAffected U cfg uniqueTags
  = length (filter (fun tag =>
                      negb (strictEq (markerStripped tag)
                              (convertTagContent U cfg (markerStripped tag))))
                   uniqueTags).
Proof.
  intros Hmarked. unfold countAffected. rewrite countAffected_fold.
  cbn [Nat.add]. f_equal. apply filter_ext_in. intros tag Hin.
  rewrite Forall_forall in Hmarked.
  rewrite substring_marker by auto. reflexivity.
Qed.

End EnumerationFacts.

(** C6: for every collection of distinct known tags, each with its marker,
    and every configuration, [updateStats] changes nothing but the
    statistics it displays (vault, tag collection and settings are as
    before), and the count it displays is the number of the tags whose
    marker-stripped value differs from its image under [convertTagContent]
    (the spec's transformTag). *)
Theorem updateStats_counts_tags_that_would_change
  (U : UnicodeTables) (modal : TagManagerModal) :
  NoDup (uniqueTags (plugin modal)) ->
  Forall (fun tag => startsWith tag [hash] = true)
    (uniqueTags (plugin modal)) ->
  plugin (updateStats U modal) = plugin modal /\
  exists wouldChange,
    NoDup wouldChange /\
    (forall tag,
        In tag wouldChange <->
        In tag (uniqueTags (plugin modal)) /\
        convertTagContent U (settings (plugin modal)) (markerStripped tag)
        <> markerStripped tag) /\
    statsEl (updateStats U modal)
    = [TotalUniqueTags (length (uniqueTags (plugin modal)));
       TagsToBeUpdated (length wouldChange)].
Proof.
  intros Hdistinct Hmarked. split; [reflexivity|].
  exists (filter (fun tag =>
                    negb (strictEq (markerStripped tag)
                            (convertTagContent U (settings (plugin modal))
                               (markerStripped tag))))
            (uniqueTags (plugin modal))).
  split; [apply NoDup_filter; exact Hdistinct|]. split.
  - intros tag. rewrite filter_In, negb_true_iff, strictEq_false_iff.
    split; intros [Hin Hne]; (split; [exact Hin|]); intros Heq; apply Hne;
      symmetry; exact Heq.
  - unfold updateStats. cbn [statsEl].
    rewrite countAffected_spec by exact Hmarked. reflexivity.
Qed.

Lemma updateStats_counts_tags_that_would_change_witness :
  plugin (updateStats LatinFragment.tables exampleModal) = plugin exampleModal
  /\
  exists wouldChange,
    NoDup wouldChange /\
    (forall tag,
        In tag wouldChange <->
        In tag (uniqueTags (plugin exampleModal)) /\
        convertTagContent LatinFragment.tables
          (settings (plugin exampleModal)) (markerStripped tag)
        <> markerStripped tag) /\
    statsEl (updateStats LatinFragment.tables exampleModal)
    = [TotalUniqueTags (length (uniqueTags (plugin exampleModal)));
       TagsToBeUpdated (length wouldChange)].
Proof.
  apply (updateStats_counts_tags_that_would_change LatinFragment.tables
           exampleModal).
  - repeat constructor; simpl; intuition discriminate.
  - repeat constructor.
Defined.

(** The tags [#A], [#a] and [#B/c] under lower case: [#A] and [#B/c] would
    change, [#a] would not. *)
Example updateStats_exampleModal :
  statsEl (updateStats LatinFragment.tables exampleModal)
  = [TotalUniqueTags 3; TagsToBeUpdated 2].
Proof. reflexivity. Qed.

(* ------------------------------------------------------------------ *)
(** ** [generateTagList] *)

Section SortFacts.

Variable localeCompare : jsstring -> jsstring -> Z.
Variable keys : list jsstring.

(** On the strings of [keys] the comparison is that of a total preorder. *)
Hypothesis Htotal : forall a b,
    In a keys -> In b keys ->
    (localeCompare a b <= 0)%Z \/ (localeCompare b a <= 0)%Z.
Hypothesis Htrans : forall a b c,
    In a keys -> In b keys -> In c keys ->
    (localeCompare a b <= 0)%Z -> (localeCompare b c <= 0)%Z ->
    (localeCompare a c <= 0)%Z.

Lemma sortInsert_permutation (a : jsstring) (l : list jsstring) :
  Permutation (sortInsert localeCompare a l) (a :: l).
Proof.
  induction l as [|b l IH]; cbn [sortInsert]; [reflexivity|].
  destruct (localeCompare a b <=? 0)%Z; [reflexivity|].
  rewrite IH. apply perm_swap.
Qed.

Lemma sort_permutation (l : list jsstring) :
  Permutation (sort localeCompare l) l.
Proof.
  induction l as [|a l IH]; cbn [sort fold_right]; [reflexivity|].
  fold (sort localeCompare l).
  rewrite sortInsert_permutation, IH. reflexivity.
Qed.

Lemma sortInsert_sorted (a : jsstring) (l : list jsstring) :
  In a keys -> (forall x, In x l -> In x keys) ->
  StronglySorted (fun x y => (localeCompare x y <= 0)%Z) l ->
  StronglySorted (fun x y => (localeCompare x y <= 0)%Z)
    (sortInsert localeCompare a l).
Proof.
  intros Ha Hl Hsorted.
  induction Hsorted as [|b l Hsorted IH Hb]; cbn [sortInsert].
  - repeat constructor.
  - destruct (Z.leb_spec (localeCompare a b) 0) as [Hab|Hab].
    + constructor; [constructor; assumption|].
      constructor; [exact Hab|].
      rewrite Forall_forall in *. intros x Hx.
      apply (Htrans a b x); auto with datatypes.
    + assert (Hba : (localeCompare b a <= 0)%Z).
      { destruct (Htotal a b); auto with datatypes. lia. }
      constructor.
      * apply IH. intros x Hx. apply Hl. right. exact Hx.
      * rewrite Forall_forall in *. intros x Hx.
        apply (Permutation_in _ (sortInsert_permutation a l)) in Hx.
        destruct Hx as [<-|Hx]; auto.
Qed.

Lemma sort_sorted (l : list jsstring) :
  (forall x, In x l -> In x keys) ->
  StronglySorted (fun x y => (localeCompare x y <= 0)%Z)
    (sort localeCompare l).
Proof.
  induction l as [|a l IH]; intros Hl; cbn [sort fold_right].
  - constructor.
  - fold (sort localeCompare l). apply sortInsert_sorted.
    + apply Hl. left. reflexivity.
    + intros x Hx. apply Hl. right.
      apply (Permutation_in _ (sort_permutation l)). exact Hx.
    + apply IH. intros x Hx. apply Hl. right. exact Hx.
Qed.

End SortFacts.

Lemma modifyFile_writes (name content : jsstring) (files : list TFile) :
  existsb (fun f => strictEq (path f) name) files = true ->
  In {| path := name;
        frontmatter := {| tags := FmMissing; tag := FmMissing |};
        body := content |} (modifyFile name content files).
Proof.
  induction files as [|f files IH]; cbn [existsb modifyFile];
    [discriminate|].
  destruct (strictEq (path f) name); cbn [orb].
  - intros _. left. reflexivity.
  - intros H. right. apply IH. exact H.
Qed.

Lemma createFile_writes (name content : jsstring) (files : list TFile) :
  In {| path := name;
        frontmatter := {| tags := FmMissing; tag := FmMissing |};
        body := content |} (createFile name content files).
Proof. unfold createFile. apply in_or_app. right. left. reflexivity. Qed.

(** C7 (as amended): for every non-empty set of known tags, the tag listing
    that [generateTagList] writes to [All Tags.md] has, after its heading,
    one line per distinct tag, without duplicates, in the order of
    [localeCompare], the collation of the host's locale (a total preorder on
    the tags). *)
Theorem generateTagList_lists_tags_in_locale_order
  (localeCompare : jsstring -> jsstring -> Z) (p : Plugin) :
  uniqueTags p <> [] ->
  NoDup (uniqueTags p) ->
  (forall a b,
      In a (uniqueTags p) -> In b (uniqueTags p) ->
      (localeCompare a b <= 0)%Z \/ (localeCompare b a <= 0)%Z) ->
  (forall a b c,
      In a (uniqueTags p) -> In b (uniqueTags p) -> In c (uniqueTags p) ->
      (localeCompare a b <= 0)%Z -> (localeCompare b c <= 0)%Z ->
      (localeCompare a c <= 0)%Z) ->
  exists sortedTags file,
    Permutation sortedTags (uniqueTags p) /\
    NoDup sortedTags /\
    StronglySorted (fun a b => (localeCompare a b <= 0)%Z) sortedTags /\
    In file (vault (fst (generateTagList localeCompare p))) /\
    path file = fileName /\
    body file
    = str "# All Tags" ++ [newline; newline]
      ++ join [newline] (List.map (fun t => str "- " ++ t) sortedTags)
      ++ [newline].
Proof.
  intros Hne Hdistinct Htotal Htrans.
  unfold uniqueTags in *. unfold generateTagList.
  destruct (getTags p) as [allTags|]; [|congruence].
  pose proof (sort_permutation localeCompare (objectKeys allTags)) as Hperm.
  pose proof (sort_sorted localeCompare (objectKeys allTags) Htotal Htrans
                (objectKeys allTags) (fun x H => H)) as Hsorted.
  destruct (sort localeCompare (objectKeys allTags)) as [|t sortedTags] eqn:Hs.
  - apply Permutation_nil in Hperm. congruence.
  - exists (t :: sortedTags).
    exists {| path := fileName;
              frontmatter := {| tags := FmMissing; tag := FmMissing |};
              body := tagListContent (t :: sortedTags) |}.
    split; [exact Hperm|].
    split; [apply (Permutation_NoDup (Permutation_sym Hperm) Hdistinct)|].
    split; [exact Hsorted|].
    split; [|split; reflexivity].
    destruct (existsb (fun f => strictEq (path f) fileName) (vault p)) eqn:He;
      cbn [fst vault].
    + apply modifyFile_writes. exact He.
    + apply createFile_writes.
Qed.

Lemma generateTagList_lists_tags_in_locale_order_witness :
  exists sortedTags file,
    Permutation sortedTags (uniqueTags pluginWithTwoTags) /\
    NoDup sortedTags /\
    StronglySorted
      (fun a b => (RootCollationFragment.localeCompare a b <= 0)%Z)
      sortedTags /\
    In file
      (vault (fst (generateTagList RootCollationFragment.localeCompare
                     pluginWithTwoTags))) /\
    path file = fileName /\
    body file
    = str "# All Tags" ++ [newline; newline]
      ++ join [newline] (List.map (fun t => str "- " ++ t) sortedTags)
      ++ [newline].
Proof.
  apply (generateTagList_lists_tags_in_locale_order
           RootCollationFragment.localeCompare pluginWithTwoTags).
  - discriminate.
  - repeat constructor; simpl; intuition discriminate.
  - intros a b [<-|[<-|[]]] [<-|[<-|[]]]; vm_compute;
      (left; discriminate) || (right; discriminate).
  - intros a b c [<-|[<-|[]]] [<-|[<-|[]]] [<-|[<-|[]]]; vm_compute;
      intros H1 H2 H3; try discriminate;
      try (apply H1; reflexivity); try (apply H2; reflexivity).
Defined.

(** C7 fails as stated: of the tags [#B] and [#a], [#B] comes first in the
    order of code points (B is U+0042, a is U+0061), and the listing written
    by [generateTagList] has [#a] first, as the collation has it. *)
Lemma generateTagList_not_in_code_point_order :
  codePointLe (str "#B") (str "#a") = true /\
  codePointLe (str "#a") (str "#B") = false /\
  sort RootCollationFragment.localeCompare (uniqueTags pluginWithTwoTags)
  = [str "#a"; str "#B"] /\
  ~ StronglySorted (fun a b => codePointLe a b = true)
      (sort RootCollationFragment.localeCompare
         (uniqueTags pluginWithTwoTags)) /\
  generateTagList RootCollationFragment.localeCompare pluginWithTwoTags
  = ({| vault :=
          [{| path := str "All Tags.md";
              frontmatter := {| tags := FmMissing; tag := FmMissing |};
              body := str "# All Tags" ++ [newline; newline]
                      ++ str "- #a" ++ [newline]
                      ++ str "- #B" ++ [newline] |}];
        getTags := getTags pluginWithTwoTags;
        settings := settings pluginWithTwoTags |},
     [Create (str "All Tags.md");
      NewNotice (CreatedList (str "All Tags.md") 2)]).
Proof.
  split; [reflexivity|]. split; [reflexivity|]. split; [reflexivity|].
  split; [|vm_compute; reflexivity].
  intros Hsorted. inversion Hsorted as [|a l _ Hfirst]; subst.
  inversion Hfirst as [|b l' Hle _]; subst. vm_compute in Hle. discriminate.
Qed.

(* ================================================================== *)
(** * Further properties of the code *)

(* ------------------------------------------------------------------ *)
(** ** The transformer *)

Lemma in_join (sep : jsstring) (x : codepoint) (parts : list jsstring) :
  In x (join sep parts) ->
  In x sep \/ exists part, In part parts /\ In x part.
Proof.
  induction parts as [|p ps IH]; [intros []|].
  destruct ps as [|q ps].
  - cbn [join]. intros H. right. exists p. split; [left; reflexivity|exact H].
  - rewrite join_cons. intros H.
    apply in_app_or in H as [H|H];
      [right; exists p; split; [left; reflexivity|exact H]|].
    apply in_app_or in H as [H|H]; [left; exact H|].
    destruct (IH H) as [Hs|[part [Hin Hx]]]; [left; exact Hs|].
    right. exists part. split; [right; exact Hin|exact Hx].
Qed.

Lemma Forall_join (P : codepoint -> Prop) (sep : jsstring)
  (parts : list jsstring) :
  Forall P sep -> Forall (Forall P) parts -> Forall P (join sep parts).
Proof.
  intros Hsep Hparts. apply Forall_forall. intros x Hx.
  destruct (in_join sep x parts Hx) as [H|[part [Hin H]]].
  - rewrite Forall_forall in Hsep. auto.
  - rewrite Forall_forall in Hparts. specialize (Hparts part Hin).
    rewrite Forall_forall in Hparts. auto.
Qed.

Section TransformerMore.

Variable U : UnicodeTables.
Variable settings : TagLowercaseSettings.

Lemma mapIndexFrom_ext {A B : Type} (f g : A -> nat -> B) (i : nat)
  (l : list A) :
  (forall x k, In x l -> f x k = g x k) ->
  mapIndexFrom f i l = mapIndexFrom g i l.
Proof.
  revert i. induction l as [|x l IH]; intros i H; cbn [mapIndexFrom];
    [reflexivity|].
  rewrite H by (left; reflexivity).
  rewrite IH by (intros; apply H; right; assumption). reflexivity.
Qed.

Lemma mapIndexFrom_const {A B : Type} (g : A -> B) (i : nat) (l : list A) :
  mapIndexFrom (fun x _ => g x) i l = List.map g l.
Proof.
  revert i. induction l as [|x l IH]; intros i; cbn [mapIndexFrom List.map];
    [reflexivity|]. rewrite IH. reflexivity.
Qed.

Lemma processedParts_nested_on (parts : list jsstring) :
  applyToNestedTags settings = true ->
  mapIndex (convertPart U settings) parts
  = List.map (transformSegment U settings) parts.
Proof.
  intros Hon. unfold mapIndex.
  rewrite <- (mapIndexFrom_const (transformSegment U settings) 0).
  apply mapIndexFrom_ext. intros x k _. unfold convertPart.
  rewrite Hon, andb_false_r. reflexivity.
Qed.

(** Without removal, or without case conversion, a second application of
    [transformSegment] changes nothing. *)
Lemma transformSegment_fixed (x : jsstring) :
  caseConversionIdempotent U ->
  caseConversionKeepsOut U hyphen ->
  caseConversionKeepsOut U underscore ->
  removeSpecialChars settings = false \/ caseStrategy settings = case_none ->
  transformSegment U settings (transformSegment U settings x)
  = transformSegment U settings x.
Proof.
  intros Hidem Hh Hu Hcases.
  pose proof (transformSegment_separator_free U Hh Hu settings x) as Hsep.
  pose proof (transformSegment_case_fixed U Hidem settings x) as Hcase.
  assert (H1 : (if removeSpecialChars settings
                then removeSpecial U (transformSegment U settings x)
                else transformSegment U settings x)
               = transformSegment U settings x).
  { destruct (removeSpecialChars settings) eqn:Hrm; [|reflexivity].
    destruct Hcases as [Hoff|Hnone]; [discriminate|].
    apply filter_all. apply transformSegment_kept_without_case; assumption. }
  set (z := transformSegment U settings x) in *.
  unfold transformSegment at 1. rewrite H1.
  assert (H2 : match separatorStrategy settings with
               | sep_snake => replaceChar hyphen underscore z
               | sep_kebab => replaceChar underscore hyphen z
               | sep_preserve => z
               end = z).
  { destruct (separatorStrategy settings);
      [reflexivity | apply replaceChar_free | apply replaceChar_free];
      exact Hsep. }
  rewrite H2. exact Hcase.
Qed.

Lemma transformSegment_unchanged (x : jsstring) :
  caseStrategy settings = case_none ->
  separatorStrategy settings = sep_preserve ->
  removeSpecialChars settings = false ->
  transformSegment U settings x = x.
Proof.
  intros Hc Hs Hr. unfold transformSegment. rewrite Hc, Hs, Hr. reflexivity.
Qed.

Lemma convertTagContent_unchanged (x : jsstring) :
  caseStrategy settings = case_none ->
  separatorStrategy settings = sep_preserve ->
  removeSpecialChars settings = false ->
  convertTagContent U settings x = x.
Proof.
  intros Hc Hs Hr. unfold convertTagContent, mapIndex.
  rewrite (mapIndexFrom_ext _ (fun part _ => part)).
  - rewrite mapIndexFrom_const, map_id. apply join_split.
  - intros part k _. unfold convertPart.
    rewrite transformSegment_unchanged by assumption.
    destruct ((0 <? k)%nat && negb (applyToNestedTags settings)); reflexivity.
Qed.

End TransformerMore.

(** X1: with apply-to-nested on, the segments of the output of
    [convertTagContent] are the segments of the input, each one transformed
    by [transformSegment], in the same order.  The Unicode tables are any
    tables whose case conversions introduce no slash. *)
Theorem convertTagContent_nested_on_transforms_every_segment
  (U : UnicodeTables) (settings : TagLowercaseSettings)
  (tagContent : jsstring) :
  caseConversionKeepsOut U slash ->
  applyToNestedTags settings = true ->
  split slash (convertTagContent U settings tagContent)
  = List.map (transformSegment U settings) (split slash tagContent).
Proof.
  intros Hslash Hon. rewrite split_convertTagContent by exact Hslash.
  apply processedParts_nested_on. exact Hon.
Qed.

Lemma convertTagContent_nested_on_transforms_every_segment_witness :
  split slash
    (convertTagContent LatinFragment.tables settingsVariants_snake
       (str "My-Tag/Sub-Tag//X"))
  = [str "my_tag"; str "sub_tag"; []; str "x"].
Proof.
  rewrite (convertTagContent_nested_on_transforms_every_segment
             LatinFragment.tables settingsVariants_snake
             (str "My-Tag/Sub-Tag//X")
             (LatinFragment_keeps_out slash (or_introl eq_refl)) eq_refl).
  reflexivity.
Defined.

(** X2: with case strategy none, separators preserved and removal off,
    [convertTagContent] returns its input, whatever the input and whatever
    apply-to-nested says. *)
Theorem convertTagContent_changes_nothing_when_all_is_off
  (U : UnicodeTables) (settings : TagLowercaseSettings)
  (tagContent : jsstring) :
  caseStrategy settings = case_none ->
  separatorStrategy settings = sep_preserve ->
  removeSpecialChars settings = false ->
  convertTagContent U settings tagContent = tagContent.
Proof.
  intros Hc Hs Hr. apply convertTagContent_unchanged; assumption.
Qed.

Lemma convertTagContent_changes_nothing_when_all_is_off_witness :
  convertTagContent LatinFragment.tables settings_change_nothing
    (str "/My-Tag//Sub_Tag!/") = str "/My-Tag//Sub_Tag!/".
Proof.
  exact (convertTagContent_changes_nothing_when_all_is_off
           LatinFragment.tables settings_change_nothing
           (str "/My-Tag//Sub_Tag!/") eq_refl eq_refl eq_refl).
Defined.

(** X3: with apply-to-nested on, the output of [convertTagContent] holds no
    hyphen under the snake strategy and no underscore under the kebab
    strategy, whatever the input.  The Unicode tables are any tables whose
    case conversions introduce neither character. *)
Theorem convertTagContent_leaves_no_replaced_separator
  (U : UnicodeTables) (settings : TagLowercaseSettings)
  (tagContent : jsstring) :
  caseConversionKeepsOut U hyphen ->
  caseConversionKeepsOut U underscore ->
  applyToNestedTags settings = true ->
  (separatorStrategy settings = sep_snake ->
   ~ In hyphen (convertTagContent U settings tagContent)) /\
  (separatorStrategy settings = sep_kebab ->
   ~ In underscore (convertTagContent U settings tagContent)).
Proof.
  intros Hh Hu Hon. unfold convertTagContent.
  rewrite processedParts_nested_on by exact Hon.
  split; intros Hs Hin; apply in_join in Hin as [[Hx|[]]|[part [Hp Hx]]];
    try discriminate;
    apply in_map_iff in Hp as [seg [<- _]];
    pose proof (transformSegment_separator_free U Hh Hu settings seg) as Hfree;
    rewrite Hs in Hfree; contradiction.
Qed.

Lemma convertTagContent_leaves_no_replaced_separator_witness :
  ~ In hyphen
      (convertTagContent LatinFragment.tables settingsVariants_snake
         (str "a-b/c-d-e")) /\
  ~ In underscore
      (convertTagContent LatinFragment.tables settingsVariants_kebab
         (str "a_b/c_d-e")).
Proof.
  split.
  - exact (proj1 (convertTagContent_leaves_no_replaced_separator
                    LatinFragment.tables settingsVariants_snake
                    (str "a-b/c-d-e")
                    (LatinFragment_keeps_out hyphen (or_introl eq_refl))
                    (LatinFragment_keeps_out underscore
                       (or_intror (conj eq_refl eq_refl)))
                    eq_refl) eq_refl).
  - exact (proj2 (convertTagContent_leaves_no_replaced_separator
                    LatinFragment.tables settingsVariants_kebab
                    (str "a_b/c_d-e")
                    (LatinFragment_keeps_out hyphen (or_introl eq_refl))
                    (LatinFragment_keeps_out underscore
                       (or_intror (conj eq_refl eq_refl)))
                    eq_refl) eq_refl).
Defined.

Lemma convertPart_fixed (U : UnicodeTables) (settings : TagLowercaseSettings)
  (i : nat) (parts : list jsstring) :
  (forall part,
      transformSegment U settings (transformSegment U settings part)
      = transformSegment U settings part) ->
  mapIndexFrom (convertPart U settings) i
    (mapIndexFrom (convertPart U settings) i parts)
  = mapIndexFrom (convertPart U settings) i parts.
Proof.
  intros Hfixed. revert i.
  induction parts as [|p ps IH]; intros i; cbn [mapIndexFrom];
    [reflexivity|].
  rewrite IH. f_equal. unfold convertPart.
  destruct ((0 <? i)%nat && negb (applyToNestedTags settings));
    [reflexivity | apply Hfixed].
Qed.

(** X4: when removal of special characters is off, or the case strategy is
    none, converting a tag that has been converted changes nothing:
    [convertTagContent (convertTagContent x) = convertTagContent x].  The
    Unicode tables are any tables whose case conversions are idempotent and
    introduce no hyphen, underscore or slash. *)
Theorem convertTagContent_idempotent_without_removal_or_case
  (U : UnicodeTables) (settings : TagLowercaseSettings)
  (tagContent : jsstring) :
  caseConversionIdempotent U ->
  caseConversionKeepsOut U hyphen ->
  caseConversionKeepsOut U underscore ->
  caseConversionKeepsOut U slash ->
  removeSpecialChars settings = false \/ caseStrategy settings = case_none ->
  convertTagContent U settings (convertTagContent U settings tagContent)
  = convertTagContent U settings tagContent.
Proof.
  intros Hidem Hh Hu Hslash Hcases.
  unfold convertTagContent at 1.
  rewrite split_convertTagContent by exact Hslash.
  unfold convertTagContent, mapIndex. f_equal.
  apply convertPart_fixed. intros part.
  apply transformSegment_fixed; assumption.
Qed.

Lemma convertTagContent_idempotent_without_removal_or_case_witness :
  convertTagContent LatinFragment.tables settingsVariants_snake
    (convertTagContent LatinFragment.tables settingsVariants_snake
       (str "My-Tag/Sub-Tag"))
  = convertTagContent LatinFragment.tables settingsVariants_snake
      (str "My-Tag/Sub-Tag").
Proof.
  exact (convertTagContent_idempotent_without_removal_or_case
           LatinFragment.tables settingsVariants_snake (str "My-Tag/Sub-Tag")
           LatinFragment_idempotent
           (LatinFragment_keeps_out hyphen (or_introl eq_refl))
           (LatinFragment_keeps_out underscore
              (or_intror (conj eq_refl eq_refl)))
           (LatinFragment_keeps_out slash (or_introl eq_refl))
           (or_introl eq_refl)).
Defined.

(** X5: with removal of special characters on, the case strategy none and
    apply-to-nested on, every character of the output of
    [convertTagContent] is a letter, a number, a hyphen, an underscore or a
    slash. *)
Theorem convertTagContent_strip_leaves_tag_characters
  (U : UnicodeTables) (settings : TagLowercaseSettings)
  (tagContent : jsstring) :
  removeSpecialChars settings = true ->
  caseStrategy settings = case_none ->
  applyToNestedTags settings = true ->
  Forall (fun c => keptChar U c = true \/ c = slash)
    (convertTagContent U settings tagContent).
Proof.
  intros Hrm Hnone Hon. unfold convertTagContent.
  rewrite processedParts_nested_on by exact Hon.
  apply Forall_join.
  - constructor; [right; reflexivity | constructor].
  - apply Forall_map. apply Forall_forall. intros part _.
    eapply Forall_impl;
      [|apply (transformSegment_kept_without_case U settings part Hnone Hrm)].
    intros c Hc. left. exact Hc.
Qed.

Lemma convertTagContent_strip_leaves_tag_characters_witness :
  Forall (fun c => keptChar LatinFragment.tables c = true \/ c = slash)
    (convertTagContent LatinFragment.tables settings_strip_kebab
       (str "My Tag!/Sub_Tag (2)")) /\
  convertTagContent LatinFragment.tables settings_strip_kebab
    (str "My Tag!/Sub_Tag (2)") = str "MyTag/Sub-Tag2".
Proof.
  split; [|reflexivity].
  exact (convertTagContent_strip_leaves_tag_characters
           LatinFragment.tables settings_strip_kebab
           (str "My Tag!/Sub_Tag (2)") eq_refl eq_refl eq_refl).
Defined.

(* ------------------------------------------------------------------ *)
(** ** Replacing in the body *)

Section ReplaceMore.

Context {G St : Type}.
Variable exec : bool -> jsstring -> option (nat * G).
Variable replacer : G -> St -> jsstring * St.

(** Where the expression matches nowhere, the text is returned as it is and
    the callback never runs. *)
Lemma replaceFrom_no_match (data : jsstring) (atStart : bool) (st : St) :
  (forall b before after, data = before ++ after -> exec b after = None) ->
  replaceFrom exec replacer 0 atStart data st = (data, st).
Proof.
  revert atStart. induction data as [|c data IH]; intros atStart Hnone;
    [reflexivity|].
  cbn [replaceFrom]. rewrite (Hnone atStart [] (c :: data) eq_refl).
  rewrite IH; [reflexivity|].
  intros b before after Heq. apply (Hnone b (c :: before) after).
  rewrite Heq. reflexivity.
Qed.

(** Where the callback returns the text that was matched, the text is
    returned as it is. *)
Lemma replaceFrom_same_text (data : jsstring) (skip : nat) (atStart : bool)
  (st : St) :
  (forall b text len g st',
      exec b text = Some (len, g) ->
      fst (replacer g st') = firstn len text) ->
  fst (replaceFrom exec replacer skip atStart data st) = skipn skip data.
Proof.
  intros Hsame. revert skip atStart st.
  induction data as [|c data IH]; intros skip atStart st.
  - destruct skip; reflexivity.
  - cbn [replaceFrom]. destruct skip as [|k]; [|apply IH].
    destruct (exec atStart (c :: data)) as [[len g]|] eqn:Hexec.
    + specialize (Hsame _ _ _ _ st Hexec).
      destruct (replacer g st) as [r st1]. cbn [fst] in Hsame. subst r.
      destruct len as [|k].
      * specialize (IH 0%nat false st1).
        destruct (replaceFrom exec replacer 0 false data st1) as [out st2].
        cbn [fst skipn firstn app] in *. rewrite IH. reflexivity.
      * specialize (IH k false st1).
        destruct (replaceFrom exec replacer k false data st1) as [out st2].
        cbn [fst skipn firstn app] in *. rewrite IH.
        rewrite firstn_skipn. reflexivity.
    + specialize (IH 0%nat false st).
      destruct (replaceFrom exec replacer 0 false data st) as [out st1].
      cbn [fst skipn] in *. rewrite IH. reflexivity.
Qed.

End ReplaceMore.

Section BodyFacts.

Variable U : UnicodeTables.

Lemma inlineTagRegex_without_marker (atStart : bool) (text : jsstring) :
  ~ In hash text -> inlineTagRegex U atStart text = None.
Proof.
  intros Hfree. unfold inlineTagRegex, inlineAfterBoundary.
  destruct text as [|w text]; [destruct atStart; reflexivity|].
  assert (Hw : (w =? hash) = false)
    by (apply N.eqb_neq; intros ->; apply Hfree; left; reflexivity).
  rewrite Hw.
  assert (Hnext : (if isSpace w
                   then match text with
                        | [] => None
                        | h :: text' =>
                            if h =? hash
                            then match tagRun U text' with
                                 | [] => None
                                 | c :: run =>
                                     Some ((length [w] + 1
                                            + length (c :: run))%nat,
                                           ([w], hash :: c :: run))
                                 end
                            else None
                        end
                   else None) = None).
  { destruct (isSpace w); [|reflexivity].
    destruct text as [|h text]; [reflexivity|].
    assert (Hh : (h =? hash) = false)
      by (apply N.eqb_neq; intros ->; apply Hfree; right; left; reflexivity).
    rewrite Hh. reflexivity. }
  destruct atStart; exact Hnext.
Qed.

Lemma tagRegex_without_marker (literal : jsstring) (atStart : bool)
  (text : jsstring) :
  ~ In hash text -> tagRegex U literal atStart text = None.
Proof.
  intros Hfree. unfold tagRegex, tagAfterBoundary.
  destruct text as [|w text]; [destruct atStart; reflexivity|].
  assert (Hw : (w =? hash) = false)
    by (apply N.eqb_neq; intros ->; apply Hfree; left; reflexivity).
  rewrite Hw. cbn [andb].
  assert (Hnext : (if isSpace w
                   then match text with
                        | [] => None
                        | h :: text' =>
                            if (h =? hash) && startsWith text' literal
                               && lookahead U (skipn (length literal) text')
                            then Some ((length [w] + 1
                                        + length literal)%nat,
                                       {| prefix := [w]; hashGroup := [hash];
                                          capturedTag := literal |})
                            else None
                        end
                   else None) = None).
  { destruct (isSpace w); [|reflexivity].
    destruct text as [|h text]; [reflexivity|].
    assert (Hh : (h =? hash) = false)
      by (apply N.eqb_neq; intros ->; apply Hfree; right; left; reflexivity).
    rewrite Hh. reflexivity. }
  destruct atStart; exact Hnext.
Qed.

Lemma not_in_suffix (x : codepoint) (data before after : jsstring) :
  ~ In x data -> data = before ++ after -> ~ In x after.
Proof.
  intros Hfree -> Hin. apply Hfree. apply in_or_app. right. exact Hin.
Qed.

End BodyFacts.

(** X6: a text that holds no marker [#] is returned unchanged by the body
    rewriting of [processFile], whatever the settings. *)
Theorem convert_body_without_marker_is_unchanged
  (U : UnicodeTables) (settings : TagLowercaseSettings) (data : jsstring) :
  ~ In hash data ->
  convert_body U settings data tt = (data, tt).
Proof.
  intros Hfree. unfold convert_body, replaceGlobal.
  apply replaceFrom_no_match. intros b before after Heq.
  apply inlineTagRegex_without_marker.
  exact (not_in_suffix hash data before after Hfree Heq).
Qed.

Lemma convert_body_without_marker_is_unchanged_witness :
  convert_body LatinFragment.tables DEFAULT_SETTINGS
    (str "No Tags HERE, only Text.") tt
  = (str "No Tags HERE, only Text.", tt).
Proof.
  apply (convert_body_without_marker_is_unchanged LatinFragment.tables
           DEFAULT_SETTINGS (str "No Tags HERE, only Text.")).
  vm_compute. intuition discriminate.
Defined.

(** X7: a text that holds no marker [#] is returned unchanged by the body
    rewriting of [renameTag], and [modified] keeps its value, whatever the
    search term and the replacement. *)
Theorem rename_body_without_marker_is_unchanged
  (U : UnicodeTables) (search replace data : jsstring) (modified : bool) :
  ~ In hash data ->
  rename_body U search replace data modified = (data, modified).
Proof.
  intros Hfree. unfold rename_body, replaceGlobal.
  apply replaceFrom_no_match. intros b before after Heq.
  apply tagRegex_without_marker.
  exact (not_in_suffix hash data before after Hfree Heq).
Qed.

Lemma rename_body_without_marker_is_unchanged_witness :
  rename_body LatinFragment.tables (str "tag") (str "new")
    (str "a tag, no marker") false
  = (str "a tag, no marker", false).
Proof.
  apply (rename_body_without_marker_is_unchanged LatinFragment.tables
           (str "tag") (str "new") (str "a tag, no marker") false).
  vm_compute. intuition discriminate.
Defined.

Section InlineTags.

Variable U : UnicodeTables.
Variable settings : TagLowercaseSettings.

Lemma tagRun_prefix (text : jsstring) :
  text = tagRun U text ++ skipn (length (tagRun U text)) text.
Proof.
  induction text as [|c text IH]; [reflexivity|]. cbn [tagRun].
  destruct (tagBodyChar U c); [|reflexivity].
  cbn [length skipn app]. rewrite <- IH. reflexivity.
Qed.

Lemma inlineAfterBoundary_at_tag (pre raw post : jsstring) :
  raw <> [] -> tagRun U (raw ++ post) = raw ->
  inlineAfterBoundary U pre (hash :: raw ++ post)
  = Some ((length pre + 1 + length raw)%nat, (pre, hash :: raw)).
Proof.
  intros Hne Hrun. unfold inlineAfterBoundary.
  rewrite N.eqb_refl, Hrun. destruct raw; [congruence|reflexivity].
Qed.

(** What a match of the inline tag pattern covers. *)
Lemma inlineAfterBoundary_span (pre text : jsstring) (len : nat)
  (groups : jsstring * jsstring) :
  inlineAfterBoundary U pre text = Some (len, groups) ->
  fst groups = pre /\
  snd groups = hash :: tagRun U (skipn 1 text) /\
  fst groups ++ snd groups = firstn len (pre ++ text).
Proof.
  unfold inlineAfterBoundary. destruct text as [|h text]; [discriminate|].
  destruct (N.eqb_spec h hash) as [->|]; [|discriminate].
  pose proof (tagRun_prefix text) as Hprefix.
  cbn [skipn]. destruct (tagRun U text) as [|c run] eqn:Hrun; [discriminate|].
  intros [= <- <-]. cbn [fst snd]. repeat split.
  rewrite Hprefix at 1.
  change (pre ++ hash :: (c :: run) ++ skipn (length (c :: run)) text)
    with (pre ++ (hash :: c :: run) ++ skipn (length (c :: run)) text).
  generalize (skipn (length (c :: run)) text). intros rest.
  replace (length pre + 1 + S (length run))%nat
    with (length (pre ++ hash :: c :: run))
    by (rewrite length_app; cbn [length]; lia).
  rewrite app_assoc, firstn_app, firstn_all, Nat.sub_diag. cbn [firstn].
  rewrite app_nil_r. reflexivity.
Qed.

Lemma inlineTagRegex_span (atStart : bool) (text : jsstring) (len : nat)
  (groups : jsstring * jsstring) :
  inlineTagRegex U atStart text = Some (len, groups) ->
  (exists run, snd groups = hash :: run) /\
  fst groups ++ snd groups = firstn len text.
Proof.
  unfold inlineTagRegex.
  destruct (if atStart then inlineAfterBoundary U [] text else None)
    as [[len' groups']|] eqn:Hfirst.
  - intros [= -> ->]. destruct atStart; [|discriminate].
    destruct (inlineAfterBoundary_span [] text len groups Hfirst)
      as [_ [Hsnd Hspan]].
    split; [eexists; exact Hsnd | exact Hspan].
  - destruct text as [|w text]; [discriminate|].
    destruct (isSpace w); [|discriminate]. intros Hsecond.
    destruct (inlineAfterBoundary_span [w] text len groups Hsecond)
      as [_ [Hsnd Hspan]].
    split; [eexists; exact Hsnd | exact Hspan].
Qed.

End InlineTags.

(** X8: in the body rewriting of [processFile], an inline tag at the start
    of the text or after a white space, that is a marker followed by the
    longest run [raw] of tag characters (one at least), is replaced by the
    marker and [convertTagContent raw]; the white space before it is kept
    and the rewriting goes on with what follows the tag. *)
Theorem convert_body_converts_inline_tag
  (U : UnicodeTables) (settings : TagLowercaseSettings)
  (raw post : jsstring) :
  raw <> [] ->
  tagRun U (raw ++ post) = raw ->
  convert_body U settings (hash :: raw ++ post) tt
  = (hash :: convertTagContent U settings raw
       ++ fst (replaceFrom (inlineTagRegex U) (convert_replacer U settings)
                 0 false post tt), tt) /\
  forall w atStart,
    isSpace w = true ->
    replaceFrom (inlineTagRegex U) (convert_replacer U settings) 0 atStart
      (w :: hash :: raw ++ post) tt
    = (w :: hash :: convertTagContent U settings raw
         ++ fst (replaceFrom (inlineTagRegex U) (convert_replacer U settings)
                   0 false post tt), tt).
Proof.
  intros Hne Hrun. split.
  - unfold convert_body, replaceGlobal. cbn [replaceFrom].
    unfold inlineTagRegex at 1.
    rewrite (inlineAfterBoundary_at_tag U [] raw post Hne Hrun).
    cbn [length Nat.add convert_replacer substring skipn app].
    rewrite replaceFrom_skip.
    destruct (replaceFrom (inlineTagRegex U) (convert_replacer U settings)
                0 false post tt) as [out []].
    reflexivity.
  - intros w atStart Hw. cbn [replaceFrom].
    assert (Hexec : inlineTagRegex U atStart (w :: hash :: raw ++ post)
                    = Some ((length [w] + 1 + length raw)%nat,
                            ([w], hash :: raw))).
    { unfold inlineTagRegex. rewrite Hw.
      rewrite (inlineAfterBoundary_at_tag U [w] raw post Hne Hrun).
      destruct atStart; [|reflexivity].
      unfold inlineAfterBoundary at 1.
      rewrite (isSpace_not_hash w Hw). reflexivity. }
    rewrite Hexec.
    cbn [length Nat.add convert_replacer substring skipn app replaceFrom].
    rewrite replaceFrom_skip.
    destruct (replaceFrom (inlineTagRegex U) (convert_replacer U settings)
                0 false post tt) as [out []].
    reflexivity.
Qed.

Lemma convert_body_converts_inline_tag_witness :
  tagRun LatinFragment.tables (str "My-Tag/Sub" ++ str ". More #X") 
  = str "My-Tag/Sub" /\
  convert_body LatinFragment.tables settingsVariants_snake
    (str "#My-Tag/Sub. More #X") tt
  = (str "#my_tag/sub. More #x", tt).
Proof.
  split; [reflexivity|].
  assert (Hne : str "My-Tag/Sub" <> []) by discriminate.
  refine (eq_trans
            (proj1 (convert_body_converts_inline_tag LatinFragment.tables
                      settingsVariants_snake (str "My-Tag/Sub")
                      (str ". More #X") Hne eq_refl)) _).
  reflexivity.
Defined.

(* ------------------------------------------------------------------ *)
(** ** The front matter *)

Section FrontMatterFacts.

Context {St : Type}.
Variable f : jsstring -> Eff St jsstring.

(** [f] returns, whatever the tag and the state. *)
Hypothesis Hreturns : forall t st, exists t' st', f t st = Ok (t', st').

Lemma mapEff_onElem_throws (l : list FmElem) (st : St) :
  existsb isOther l = true -> mapEff (onElem f) l st = Throw TypeError.
Proof.
  revert st. induction l as [|e l IH]; intros st; [discriminate|].
  cbn [existsb mapEff]. destruct e as [t|]; cbn [isOther orb onElem].
  - intros Hl. unfold bind at 1. unfold bind at 1.
    destruct (Hreturns t st) as [t' [st' ->]]. cbn [ret].
    unfold bind. rewrite (IH st' Hl). reflexivity.
  - intros _. reflexivity.
Qed.

Lemma mapEff_onElem_returns (l : list FmElem) (st : St) :
  existsb isOther l = false ->
  exists l' st', mapEff (onElem f) l st = Ok (l', st').
Proof.
  revert st. induction l as [|e l IH]; intros st.
  - intros _. exists [], st. reflexivity.
  - cbn [existsb mapEff]. destruct e as [t|]; cbn [isOther orb onElem];
      [|discriminate].
    intros Hl. unfold bind at 1. unfold bind at 1.
    destruct (Hreturns t st) as [t' [st' ->]]. cbn [ret].
    destruct (IH st' Hl) as [l' [st'' Hrest]].
    unfold bind. rewrite Hrest. eexists. eexists. reflexivity.
Qed.

Lemma processField_throws (v : FmValue) (st : St) :
  holdsNonString v = true -> processField f v st = Throw TypeError.
Proof.
  destruct v as [|t|l|]; try discriminate. cbn [holdsNonString processField].
  intros Hl. unfold bind. rewrite (mapEff_onElem_throws l st Hl). reflexivity.
Qed.

Lemma processField_returns (v : FmValue) (st : St) :
  holdsNonString v = false ->
  exists v' st', processField f v st = Ok (v', st').
Proof.
  destruct v as [|t|l|]; cbn [holdsNonString processField]; intros Hl.
  - eexists. eexists. reflexivity.
  - destruct t as [|c t]; [eexists; eexists; reflexivity|].
    unfold bind. destruct (Hreturns (c :: t) st) as [t' [st' ->]].
    eexists. eexists. reflexivity.
  - unfold bind. destruct (mapEff_onElem_returns l st Hl) as [l' [st' ->]].
    eexists. eexists. reflexivity.
  - eexists. eexists. reflexivity.
Qed.

Lemma processTagFields_throws (fm : FrontMatter) (st : St) :
  frontMatterThrows fm = true -> processTagFields f fm st = Throw TypeError.
Proof.
  unfold frontMatterThrows, processTagFields. intros Hthrows.
  destruct (holdsNonString (tags fm)) eqn:Htags.
  - unfold bind. rewrite (processField_throws _ st Htags). reflexivity.
  - cbn [orb] in Hthrows. unfold bind at 1.
    destruct (processField_returns _ st Htags) as [v1 [st1 ->]].
    unfold bind. rewrite (processField_throws _ st1 Hthrows). reflexivity.
Qed.

Lemma processTagFields_returns (fm : FrontMatter) (st : St) :
  frontMatterThrows fm = false ->
  exists fm' st', processTagFields f fm st = Ok (fm', st').
Proof.
  unfold frontMatterThrows, processTagFields. intros Hthrows.
  apply orb_false_iff in Hthrows as [Htags Htag].
  unfold bind at 1.
  destruct (processField_returns _ st Htags) as [v1 [st1 ->]].
  unfold bind at 1.
  destruct (processField_returns _ st1 Htag) as [v2 [st2 ->]].
  eexists. eexists. reflexivity.
Qed.

End FrontMatterFacts.

Section FrontMatterKept.

Context {St : Type}.
Variable f : jsstring -> Eff St jsstring.

(** [f] returns the tag it was given. *)
Hypothesis Hsame : forall t st, exists st', f t st = Ok (t, st').

Lemma mapEff_onElem_same (l l' : list FmElem) (st st' : St) :
  mapEff (onElem f) l st = Ok (l', st') -> l' = l.
Proof.
  revert l' st st'. induction l as [|e l IH]; intros l' st st'.
  - intros [= <- _]. reflexivity.
  - cbn [mapEff]. destruct e as [t|]; cbn [onElem]; [|discriminate].
    unfold bind at 1. unfold bind at 1.
    destruct (Hsame t st) as [st1 ->]. cbn [ret]. unfold bind at 1.
    destruct (mapEff (onElem f) l st1) as [[l1 st2]|e] eqn:Hrest;
      [|discriminate].
    cbn [ret]. intros [= <- _]. rewrite (IH l1 st1 st2 Hrest). reflexivity.
Qed.

Lemma processField_same (v v' : FmValue) (st st' : St) :
  processField f v st = Ok (v', st') -> v' = v.
Proof.
  destruct v as [|t|l|]; cbn [processField].
  - intros [= <- _]. reflexivity.
  - destruct t as [|c t]; [intros [= <- _]; reflexivity|].
    unfold bind. destruct (Hsame (c :: t) st) as [st1 ->].
    intros [= <- _]. reflexivity.
  - unfold bind.
    destruct (mapEff (onElem f) l st) as [[l1 st1]|e] eqn:Hl; [|discriminate].
    intros [= <- _]. rewrite (mapEff_onElem_same l l1 st st1 Hl). reflexivity.
  - intros [= <- _]. reflexivity.
Qed.

Lemma processTagFields_same (fm fm' : FrontMatter) (st st' : St) :
  processTagFields f fm st = Ok (fm', st') -> fm' = fm.
Proof.
  unfold processTagFields. unfold bind at 1.
  destruct (processField f (tags fm) st) as [[v1 st1]|e] eqn:H1;
    [|discriminate].
  unfold bind at 1.
  destruct (processField f (tag fm) st1) as [[v2 st2]|e] eqn:H2;
    [|discriminate].
  intros [= <- _].
  rewrite (processField_same _ _ _ _ H1), (processField_same _ _ _ _ H2).
  destruct fm; reflexivity.
Qed.

End FrontMatterKept.

(* ------------------------------------------------------------------ *)
(** ** [processFile] and [runConversion] on documents *)

Lemma marker_and_substring (t : jsstring) :
  startsWith t [hash] = true -> hash :: substring 1 t = t.
Proof.
  destruct t as [|c t]; [discriminate|]. cbn [startsWith].
  rewrite andb_true_r. intros Hc. apply N.eqb_eq in Hc. subst c. reflexivity.
Qed.

Section ProcessFileFacts.

Variable U : UnicodeTables.
Variable settings : TagLowercaseSettings.

Lemma convert_processSingleTag_returns (t : jsstring) (st : unit) :
  exists t' st', convert_processSingleTag U settings t st = Ok (t', st').
Proof. eexists. eexists. reflexivity. Qed.

Lemma processFile_throws (file : TFile) :
  frontMatterThrows (frontmatter file) = true ->
  processFile U settings file
  = {| fileAfter := file;
       accesses := [ProcessFrontMatter (path file)];
       thrown := Some TypeError |}.
Proof.
  intros Hthrows. unfold processFile, processFrontMatter.
  unfold bind at 1. unfold bind at 1.
  rewrite (processTagFields_throws _ convert_processSingleTag_returns
             _ tt Hthrows).
  reflexivity.
Qed.

Lemma processFile_returns (file : TFile) :
  frontMatterThrows (frontmatter file) = false ->
  exists fm',
    processFile U settings file
    = {| fileAfter :=
           {| path := path file; frontmatter := fm';
              body := fst (convert_body U settings (body file) tt) |};
         accesses := [ProcessFrontMatter (path file); Process (path file)];
         thrown := None |} /\
    processTagFields (convert_processSingleTag U settings)
      (frontmatter file) tt = Ok (fm', tt).
Proof.
  intros Hreturns.
  destruct (processTagFields_returns _ convert_processSingleTag_returns
              _ tt Hreturns) as [fm' [[] Hfm]].
  exists fm'. split; [|exact Hfm].
  unfold processFile, processFrontMatter.
  unfold bind at 1. unfold bind at 1. rewrite Hfm. cbn [ret].
  unfold process. cbn [body path frontmatter].
  destruct (convert_body U settings (body file) tt) as [data []].
  reflexivity.
Qed.

Lemma processFile_path (file : TFile) :
  path (fileAfter (processFile U settings file)) = path file.
Proof.
  destruct (frontMatterThrows (frontmatter file)) eqn:Hthrows.
  - rewrite processFile_throws by exact Hthrows. reflexivity.
  - destruct (processFile_returns file Hthrows) as [fm' [-> _]]. reflexivity.
Qed.

End ProcessFileFacts.

(** X9: [processFile] raises an exception exactly when [tags] or [tag] is an
    array with an element that is not a string (the callback calls
    [startsWith] on it): the exception is a TypeError, the document is left
    as it was and its body is not processed.  Otherwise [processFile]
    returns, having processed the front matter and then the body. *)
Theorem processFile_throws_exactly_on_non_string_elements
  (U : UnicodeTables) (settings : TagLowercaseSettings) (file : TFile) :
  (frontMatterThrows (frontmatter file) = true ->
   processFile U settings file
   = {| fileAfter := file;
        accesses := [ProcessFrontMatter (path file)];
        thrown := Some TypeError |}) /\
  (frontMatterThrows (frontmatter file) = false ->
   thrown (processFile U settings file) = None /\
   accesses (processFile U settings file)
   = [ProcessFrontMatter (path file); Process (path file)] /\
   body (fileAfter (processFile U settings file))
   = fst (convert_body U settings (body file) tt)).
Proof.
  split.
  - apply processFile_throws.
  - intros Hreturns.
    destruct (processFile_returns U settings file Hreturns) as [fm' [-> _]].
    repeat split.
Qed.

Lemma processFile_throws_exactly_on_non_string_elements_witness :
  thrown (processFile LatinFragment.tables DEFAULT_SETTINGS exampleFileTwo)
  = Some TypeError /\
  fileAfter (processFile LatinFragment.tables DEFAULT_SETTINGS exampleFileTwo)
  = exampleFileTwo /\
  thrown (processFile LatinFragment.tables DEFAULT_SETTINGS exampleFileThree)
  = None.
Proof.
  rewrite (proj1 (processFile_throws_exactly_on_non_string_elements
                    LatinFragment.tables DEFAULT_SETTINGS exampleFileTwo)
             eq_refl).
  split; [reflexivity|]. split; [reflexivity|].
  exact (proj1 (proj2 (processFile_throws_exactly_on_non_string_elements
                         LatinFragment.tables DEFAULT_SETTINGS
                         exampleFileThree) eq_refl)).
Defined.

(** X10: [runConversion] never adds, removes, reorders or renames a
    document: the paths of the vault afterwards are the paths before,
    whether or not some document raised an exception. *)
Theorem runConversion_keeps_the_documents_in_place
  (U : UnicodeTables) (settings : TagLowercaseSettings)
  (files : list TFile) :
  List.map path (fst (runConversion U settings files)) = List.map path files.
Proof.
  unfold runConversion, runConversionWith.
  rewrite runConversion_loop_spec. cbn [fst].
  rewrite map_map. apply map_ext. intros file. apply processFile_path.
Qed.

Section NothingToChange.

Variable U : UnicodeTables.
Variable settings : TagLowercaseSettings.
Hypothesis Hcase : caseStrategy settings = case_none.
Hypothesis Hsep : separatorStrategy settings = sep_preserve.
Hypothesis Hremove : removeSpecialChars settings = false.

Lemma convert_processSingleTag_same (t : jsstring) (st : unit) :
  exists st', convert_processSingleTag U settings t st = Ok (t, st').
Proof.
  exists st. unfold convert_processSingleTag, ret.
  rewrite !convertTagContent_unchanged by assumption.
  destruct (startsWith t [hash]) eqn:Hhash; [|reflexivity].
  rewrite marker_and_substring by exact Hhash. reflexivity.
Qed.

Lemma convert_replacer_same (atStart : bool) (text : jsstring) (len : nat)
  (groups : jsstring * jsstring) (st : unit) :
  inlineTagRegex U atStart text = Some (len, groups) ->
  fst (convert_replacer U settings groups st) = firstn len text.
Proof.
  intros Hexec.
  destruct (inlineTagRegex_span U atStart text len groups Hexec)
    as [[run Hrun] Hspan].
  destruct groups as [pre tagText]. cbn [fst snd] in *. subst tagText.
  unfold convert_replacer. cbn [fst substring skipn].
  rewrite convertTagContent_unchanged by assumption. exact Hspan.
Qed.

Lemma processFile_unchanged (file : TFile) :
  fileAfter (processFile U settings file) = file.
Proof.
  destruct (frontMatterThrows (frontmatter file)) eqn:Hthrows.
  - rewrite processFile_throws by exact Hthrows. reflexivity.
  - destruct (processFile_returns U settings file Hthrows) as [fm' [-> Hfm]].
    cbn [fileAfter].
    rewrite (processTagFields_same _ convert_processSingleTag_same
               _ _ _ _ Hfm).
    unfold convert_body, replaceGlobal.
    rewrite (replaceFrom_same_text _ _ (body file) 0 true tt
               convert_replacer_same).
    destruct file; reflexivity.
Qed.

End NothingToChange.

(** X11: with case strategy none, separators preserved and removal off,
    [runConversion] changes no document: the vault afterwards is the vault
    before, front matter and bodies included. *)
Theorem runConversion_changes_nothing_when_all_is_off
  (U : UnicodeTables) (settings : TagLowercaseSettings)
  (files : list TFile) :
  caseStrategy settings = case_none ->
  separatorStrategy settings = sep_preserve ->
  removeSpecialChars settings = false ->
  fst (runConversion U settings files) = files.
Proof.
  intros Hc Hs Hr. unfold runConversion, runConversionWith.
  rewrite runConversion_loop_spec. cbn [fst].
  rewrite <- (map_id files) at 2. apply map_ext. intros file.
  apply processFile_unchanged; assumption.
Qed.

Lemma runConversion_changes_nothing_when_all_is_off_witness :
  fst (runConversion LatinFragment.tables settings_change_nothing
         exampleVault) = exampleVault.
Proof.
  exact (runConversion_changes_nothing_when_all_is_off LatinFragment.tables
           settings_change_nothing exampleVault eq_refl eq_refl eq_refl).
Defined.

(* ------------------------------------------------------------------ *)
(** ** [renameTag] on documents *)

Section RenameFileFacts.

Variable U : UnicodeTables.
Variables literal search replace : jsstring.

Lemma rename_processSingleTag_returns (t : jsstring) (modified : bool) :
  exists t' modified',
    rename_processSingleTag search replace t modified = Ok (t', modified').
Proof.
  unfold rename_processSingleTag.
  destruct (strictEq _ search); [eexists; eexists; reflexivity|].
  destruct (startsWith _ (search ++ [slash])); eexists; eexists; reflexivity.
Qed.

(** A tag that leaves [modified] unset is returned as it was. *)
Lemma rename_processSingleTag_unset (t t' : jsstring) (modified : bool) :
  rename_processSingleTag search replace t modified = Ok (t', false) ->
  t' = t /\ modified = false.
Proof.
  unfold rename_processSingleTag.
  destruct (strictEq _ search); [discriminate|].
  destruct (startsWith _ (search ++ [slash])); [discriminate|].
  intros [= <- ->]. split; reflexivity.
Qed.

Lemma rename_elements_unset (l l' : list FmElem) (modified : bool) :
  mapEff (onElem (rename_processSingleTag search replace)) l modified
  = Ok (l', false) ->
  l' = l /\ modified = false.
Proof.
  revert l' modified. induction l as [|e l IH]; intros l' modified.
  - intros [= <- ->]. split; reflexivity.
  - cbn [mapEff]. destruct e as [t|]; cbn [onElem]; [|discriminate].
    unfold bind at 1. unfold bind at 1.
    destruct (rename_processSingleTag search replace t modified)
      as [[t' m1]|e] eqn:Ht; [|discriminate].
    cbn [ret]. unfold bind at 1.
    destruct (mapEff (onElem (rename_processSingleTag search replace)) l m1)
      as [[l1 m2]|e] eqn:Hl; [|discriminate].
    cbn [ret]. intros [= <- ->].
    destruct (IH l1 m1 Hl) as [-> ->].
    destruct (rename_processSingleTag_unset t t' modified Ht) as [-> ->].
    split; reflexivity.
Qed.

Lemma rename_field_unset (v v' : FmValue) (modified : bool) :
  processField (rename_processSingleTag search replace) v modified
  = Ok (v', false) ->
  v' = v /\ modified = false.
Proof.
  destruct v as [|t|l|]; cbn [processField].
  - intros [= <- ->]. split; reflexivity.
  - destruct t as [|c t]; [intros [= <- ->]; split; reflexivity|].
    unfold bind.
    destruct (rename_processSingleTag search replace (c :: t) modified)
      as [[t' m1]|e] eqn:Ht; [|discriminate].
    cbn [ret]. intros [= <- ->].
    destruct (rename_processSingleTag_unset _ _ _ Ht) as [-> ->].
    split; reflexivity.
  - unfold bind.
    destruct (mapEff (onElem (rename_processSingleTag search replace)) l
                modified) as [[l1 m1]|e] eqn:Hl; [|discriminate].
    cbn [ret]. intros [= <- ->].
    destruct (rename_elements_unset _ _ _ Hl) as [-> ->].
    split; reflexivity.
  - intros [= <- ->]. split; reflexivity.
Qed.

Lemma rename_fields_unset (fm fm' : FrontMatter) (modified : bool) :
  processTagFields (rename_processSingleTag search replace) fm modified
  = Ok (fm', false) ->
  fm' = fm /\ modified = false.
Proof.
  unfold processTagFields. unfold bind at 1.
  destruct (processField _ (tags fm) modified) as [[v1 m1]|e] eqn:H1;
    [|discriminate].
  unfold bind at 1.
  destruct (processField _ (tag fm) m1) as [[v2 m2]|e] eqn:H2;
    [|discriminate].
  cbn [ret]. intros [= <- ->].
  destruct (rename_field_unset _ _ _ H2) as [-> ->].
  destruct (rename_field_unset _ _ _ H1) as [-> ->].
  split; [destruct fm; reflexivity | reflexivity].
Qed.

(** Once set, [modified] stays set through the body. *)
Lemma rename_replaceFrom_set (data : jsstring) (skip : nat) (atStart : bool) :
  snd (replaceFrom (tagRegex U literal) (rename_replacer replace) skip
         atStart data true) = true.
Proof.
  revert skip atStart. induction data as [|c data IH]; intros skip atStart;
    [reflexivity|].
  cbn [replaceFrom]. destruct skip as [|k]; [|apply IH].
  destruct (tagRegex U literal atStart (c :: data)) as [[len g]|].
  - cbn [rename_replacer]. destruct len as [|k].
    + specialize (IH 0%nat false).
      destruct (replaceFrom _ _ 0 false data true). exact IH.
    + specialize (IH k false).
      destruct (replaceFrom _ _ k false data true). exact IH.
  - specialize (IH 0%nat false).
    destruct (replaceFrom _ _ 0 false data true). exact IH.
Qed.

(** A body that leaves [modified] unset is returned as it was. *)
Lemma rename_replaceFrom_unset (data : jsstring) (skip : nat)
  (atStart modified : bool) :
  snd (replaceFrom (tagRegex U literal) (rename_replacer replace) skip
         atStart data modified) = false ->
  replaceFrom (tagRegex U literal) (rename_replacer replace) skip
    atStart data modified = (skipn skip data, false) /\
  modified = false.
Proof.
  revert skip atStart. induction data as [|c data IH]; intros skip atStart.
  - cbn [replaceFrom snd]. intros ->. destruct skip; split; reflexivity.
  - cbn [replaceFrom]. destruct skip as [|k]; [|apply IH].
    destruct (tagRegex U literal atStart (c :: data)) as [[len g]|].
    + cbn [rename_replacer]. intros Hsnd. exfalso.
      destruct len as [|k].
      * pose proof (rename_replaceFrom_set data 0 false) as Hset.
        destruct (replaceFrom _ _ 0 false data true). cbn [snd] in *.
        congruence.
      * pose proof (rename_replaceFrom_set data k false) as Hset.
        destruct (replaceFrom _ _ k false data true). cbn [snd] in *.
        congruence.
    + specialize (IH 0%nat false).
      destruct (replaceFrom _ _ 0 false data modified) as [out m1].
      cbn [snd]. intros ->. destruct (IH eq_refl) as [[= ->] ->].
      split; reflexivity.
Qed.

(** What a turn of the loop comes to when it returns. *)
Lemma rename_file_shape (file file' : TFile) (modified : bool) :
  rename_file U literal search replace file = Ok (file', modified) ->
  exists fm' m1,
    processTagFields (rename_processSingleTag search replace)
      (frontmatter file) false = Ok (fm', m1) /\
    file' = {| path := path file; frontmatter := fm';
               body := fst (rename_body U literal replace (body file) m1) |}
    /\ modified = snd (rename_body U literal replace (body file) m1).
Proof.
  unfold rename_file, processFrontMatter.
  unfold bind at 1. unfold bind at 1.
  destruct (processTagFields _ (frontmatter file) false) as [[fm' m1]|e];
    [|discriminate].
  cbn [ret]. unfold process. cbn [body path frontmatter].
  destruct (rename_body U literal replace (body file) m1) as [data m2] eqn:Hb.
  intros [= <- <-]. exists fm', m1. rewrite Hb.
  split; [reflexivity|]. split; reflexivity.
Qed.

Lemma rename_file_path (file file' : TFile) (modified : bool) :
  rename_file U literal search replace file = Ok (file', modified) ->
  path file' = path file.
Proof.
  intros H. destruct (rename_file_shape _ _ _ H) as [fm' [m1 [_ [-> _]]]].
  reflexivity.
Qed.

Lemma rename_file_throws (file : TFile) :
  frontMatterThrows (frontmatter file) = true ->
  rename_file U literal search replace file = Throw TypeError.
Proof.
  intros Hthrows. unfold rename_file, processFrontMatter.
  unfold bind at 1. unfold bind at 1.
  rewrite (processTagFields_throws _ rename_processSingleTag_returns
             _ false Hthrows).
  reflexivity.
Qed.

Lemma rename_file_returns (file : TFile) :
  frontMatterThrows (frontmatter file) = false ->
  exists file' modified,
    rename_file U literal search replace file = Ok (file', modified).
Proof.
  intros Hreturns.
  destruct (processTagFields_returns _ rename_processSingleTag_returns
              _ false Hreturns) as [fm' [m1 Hfm]].
  unfold rename_file, processFrontMatter.
  unfold bind at 1. unfold bind at 1. rewrite Hfm. cbn [ret].
  unfold process.
  destruct (rename_body U literal replace _ m1) as [data m2].
  eexists. eexists. reflexivity.
Qed.

End RenameFileFacts.

(** X12: a document in which a turn of the loop of [renameTag] leaves
    [modified] unset, and which is therefore not counted, is left exactly as
    it was, front matter and body. *)
Theorem rename_file_not_counted_is_unchanged
  (U : UnicodeTables) (literal search replace : jsstring)
  (file file' : TFile) :
  rename_file U literal search replace file = Ok (file', false) ->
  file' = file.
Proof.
  intros Hfile.
  destruct (rename_file_shape U _ _ _ _ _ _ Hfile)
    as [fm' [m1 [Hfm [-> Hbody]]]].
  symmetry in Hbody. unfold rename_body, replaceGlobal in *.
  destruct (rename_replaceFrom_unset U literal replace (body file) 0 true m1
              Hbody) as [Hdata ->].
  rewrite Hdata. cbn [fst skipn].
  destruct (rename_fields_unset search replace _ _ _ Hfm) as [-> _].
  destruct file; reflexivity.
Qed.

Lemma rename_file_not_counted_is_unchanged_witness :
  rename_file LatinFragment.tables (str "tag") (str "tag") (str "new")
    exampleFileThree = Ok (exampleFileThree, false).
Proof.
  assert (H : exists file',
             rename_file LatinFragment.tables (str "tag") (str "tag")
               (str "new") exampleFileThree = Ok (file', false))
    by (eexists; vm_compute; reflexivity).
  destruct H as [file' H].
  rewrite H. f_equal. f_equal.
  exact (rename_file_not_counted_is_unchanged LatinFragment.tables
           (str "tag") (str "tag") (str "new") exampleFileThree file' H).
Defined.

Section RenameLoopFacts.

Variable U : UnicodeTables.
Variables search replace : jsstring.

Lemma rename_loop_returns (files : list TFile) (processedCount : nat) :
  Forall (fun f => frontMatterThrows (frontmatter f) = false) files ->
  rename_loop U search search replace files processedCount
  = (List.map (fun f => match rename_file U search search replace f with
                        | Ok (f', _) => f'
                        | Throw _ => f
                        end) files,
     flat_map (fun f => [ProcessFrontMatter (path f); Process (path f)])
       files,
     Ok (processedCount
         + length (filter (rename_counts U search replace) files))%nat).
Proof.
  intros Hfiles. revert processedCount.
  induction Hfiles as [|file files Hfile _ IH]; intros n;
    cbn [rename_loop List.map flat_map filter].
  - rewrite Nat.add_0_r. reflexivity.
  - unfold rename_counts at 1.
    destruct (rename_file_returns U search search replace file Hfile)
      as [file' [modified ->]].
    rewrite IH. destruct modified; cbn [length app];
      rewrite ?Nat.add_succ_r; reflexivity.
Qed.

Lemma rename_loop_throws (before after : list TFile) (bad : TFile)
  (processedCount : nat) :
  Forall (fun f => frontMatterThrows (frontmatter f) = false) before ->
  frontMatterThrows (frontmatter bad) = true ->
  rename_loop U search search replace (before ++ bad :: after) processedCount
  = (List.map (fun f => match rename_file U search search replace f with
                        | Ok (f', _) => f'
                        | Throw _ => f
                        end) before ++ bad :: after,
     flat_map (fun f => [ProcessFrontMatter (path f); Process (path f)])
       before ++ [ProcessFrontMatter (path bad)],
     Throw TypeError).
Proof.
  intros Hbefore Hbad. revert processedCount.
  induction Hbefore as [|file files Hfile _ IH]; intros n;
    cbn [app rename_loop List.map flat_map].
  - rewrite (rename_file_throws U search search replace bad Hbad).
    reflexivity.
  - destruct (rename_file_returns U search search replace file Hfile)
      as [file' [modified ->]].
    rewrite IH. reflexivity.
Qed.

Lemma rename_loop_paths (literal : jsstring) (files : list TFile)
  (processedCount : nat) :
  List.map path
    (fst (fst (rename_loop U literal search replace files processedCount)))
  = List.map path files.
Proof.
  revert processedCount.
  induction files as [|file files IH]; intros n; cbn [rename_loop];
    [reflexivity|].
  destruct (rename_file U literal search replace file)
    as [[file' modified]|e] eqn:Hfile; [|reflexivity].
  specialize (IH (if modified then S n else n)).
  destruct (rename_loop U literal search replace files
              (if modified then S n else n)) as [[rest events] res].
  cbn [fst List.map] in *.
  rewrite IH, (rename_file_path U _ _ _ _ _ _ Hfile). reflexivity.
Qed.

Lemma rename_loop_same (literal : jsstring) (files : list TFile)
  (processedCount : nat) :
  (forall file file' modified,
      rename_file U literal search replace file = Ok (file', modified) ->
      file' = file) ->
  fst (fst (rename_loop U literal search replace files processedCount))
  = files.
Proof.
  intros Hsame. revert processedCount.
  induction files as [|file files IH]; intros n; cbn [rename_loop];
    [reflexivity|].
  destruct (rename_file U literal search replace file)
    as [[file' modified]|e] eqn:Hfile; [|reflexivity].
  specialize (IH (if modified then S n else n)).
  destruct (rename_loop U literal search replace files
              (if modified then S n else n)) as [[rest events] res].
  cbn [fst] in *. rewrite IH, (Hsame _ _ _ Hfile). reflexivity.
Qed.

End RenameLoopFacts.

(** What [renameTag] does once both tags are there. *)
Lemma renameTag_unfold (U : UnicodeTables) (oldTag newTag : jsstring)
  (files : list TFile) :
  markerStripped oldTag <> [] ->
  markerStripped newTag <> [] ->
  renameTag U oldTag newTag files
  = let '(files', events, res) :=
      rename_loop U (markerStripped oldTag) (markerStripped oldTag)
        (markerStripped newTag) files 0 in
    match res with
    | Ok processedCount =>
        (files',
         GetMarkdownFiles
           :: NewNotice (Renaming (markerStripped oldTag)
                           (markerStripped newTag))
           :: events ++ [NewNotice (RenamedIn processedCount)],
         None)
    | Throw e =>
        (files',
         GetMarkdownFiles
           :: NewNotice (Renaming (markerStripped oldTag)
                           (markerStripped newTag))
           :: events,
         Some e)
    end.
Proof.
  intros Hold Hnew. unfold renameTag. rewrite <- !markerStripped_eq.
  destruct (markerStripped oldTag) as [|c search] eqn:Hs; [congruence|].
  destruct (markerStripped newTag) as [|d replace] eqn:Hr; [congruence|].
  rewrite newTagRegExp_escapeRegExp. reflexivity.
Qed.

(** X13: [renameTag] catches nothing.  When a document has, in [tags] or
    [tag], an array with an element that is not a string, the run ends at
    this document with a TypeError: the documents before it are rewritten,
    this document and the documents after it are left as they were, the
    body of this document is not processed, and the notice that closes a
    run is not shown. *)
Theorem renameTag_stops_at_the_first_exception
  (U : UnicodeTables) (oldTag newTag : jsstring)
  (before after : list TFile) (bad : TFile) :
  markerStripped oldTag <> [] ->
  markerStripped newTag <> [] ->
  Forall (fun f => frontMatterThrows (frontmatter f) = false) before ->
  frontMatterThrows (frontmatter bad) = true ->
  renameTag U oldTag newTag (before ++ bad :: after)
  = (List.map
       (fun f =>
          match rename_file U (markerStripped oldTag) (markerStripped oldTag)
                  (markerStripped newTag) f with
          | Ok (f', _) => f'
          | Throw _ => f
          end) before ++ bad :: after,
     GetMarkdownFiles
       :: NewNotice (Renaming (markerStripped oldTag) (markerStripped newTag))
       :: flat_map (fun f => [ProcessFrontMatter (path f); Process (path f)])
            before
       ++ [ProcessFrontMatter (path bad)],
     Some TypeError).
Proof.
  intros Hold Hnew Hbefore Hbad.
  rewrite renameTag_unfold by assumption.
  rewrite rename_loop_throws by assumption. reflexivity.
Qed.

Lemma renameTag_stops_at_the_first_exception_witness :
  renameTag LatinFragment.tables (str "#Last") (str "First") exampleVault
  = ([ {| path := str "one.md";
          frontmatter := {| tags := FmArray [ElString (str "#My-Tag")];
                            tag := FmMissing |};
          body := str "About #My-Tag/Sub." |};
       exampleFileTwo;
       exampleFileThree ],
     [GetMarkdownFiles; NewNotice (Renaming (str "Last") (str "First"));
      ProcessFrontMatter (str "one.md"); Process (str "one.md");
      ProcessFrontMatter (str "two.md")],
     Some TypeError).
Proof.
  assert (Hold : markerStripped (str "#Last") <> []) by discriminate.
  assert (Hnew : markerStripped (str "First") <> []) by discriminate.
  refine (eq_trans
            (renameTag_stops_at_the_first_exception LatinFragment.tables
               (str "#Last") (str "First")
               [ {| path := str "one.md";
                    frontmatter :=
                      {| tags := FmArray [ElString (str "#My-Tag")];
                         tag := FmMissing |};
                    body := str "About #My-Tag/Sub." |} ]
               [exampleFileThree] exampleFileTwo Hold Hnew _ eq_refl) _).
  - repeat constructor.
  - vm_compute. reflexivity.
Defined.

(** X14: [renameTag] never adds, removes, reorders or renames a document:
    whatever the request and however the run ends, the paths of the vault
    afterwards are the paths before. *)
Theorem renameTag_keeps_the_documents_in_place
  (U : UnicodeTables) (oldTag newTag : jsstring) (files : list TFile) :
  List.map path (fst (fst (renameTag U oldTag newTag files)))
  = List.map path files.
Proof.
  unfold renameTag.
  destruct (if startsWith oldTag [hash] then substring 1 oldTag else oldTag)
    as [|c search]; [reflexivity|].
  destruct (if startsWith newTag [hash] then substring 1 newTag else newTag)
    as [|d replace]; [reflexivity|].
  destruct (newTagRegExp (escapeRegExp (c :: search))) as [literal|e];
    [|reflexivity].
  pose proof (rename_loop_paths U (c :: search) (d :: replace) literal
                files 0) as Hpaths.
  destruct (rename_loop U literal (c :: search) (d :: replace) files 0)
    as [[files' events] [n|e]]; exact Hpaths.
Qed.

(** X15: when no document has a non-string element in [tags] or [tag],
    [renameTag] processes the front matter and then the body of every
    document, in order, and the count of its closing notice is the number
    of documents in which a turn of the loop set [modified], that is in
    which a tag value or an inline occurrence matched. *)
Theorem renameTag_counts_the_documents_with_a_match
  (U : UnicodeTables) (oldTag newTag : jsstring) (files : list TFile) :
  markerStripped oldTag <> [] ->
  markerStripped newTag <> [] ->
  Forall (fun f => frontMatterThrows (frontmatter f) = false) files ->
  renameTag U oldTag newTag files
  = (List.map
       (fun f =>
          match rename_file U (markerStripped oldTag) (markerStripped oldTag)
                  (markerStripped newTag) f with
          | Ok (f', _) => f'
          | Throw _ => f
          end) files,
     GetMarkdownFiles
       :: NewNotice (Renaming (markerStripped oldTag) (markerStripped newTag))
       :: flat_map (fun f => [ProcessFrontMatter (path f); Process (path f)])
            files
       ++ [NewNotice
             (RenamedIn
                (length
                   (filter
                      (rename_counts U (markerStripped oldTag)
                         (markerStripped newTag)) files)))],
     None).
Proof.
  intros Hold Hnew Hfiles.
  rewrite renameTag_unfold by assumption.
  rewrite rename_loop_returns by assumption. reflexivity.
Qed.

Lemma renameTag_counts_the_documents_with_a_match_witness :
  snd (fst (renameTag LatinFragment.tables (str "#Last") (str "First")
              [exampleFileThree; exampleFileThree]))
  = [GetMarkdownFiles; NewNotice (Renaming (str "Last") (str "First"));
     ProcessFrontMatter (str "three.md"); Process (str "three.md");
     ProcessFrontMatter (str "three.md"); Process (str "three.md");
     NewNotice (RenamedIn 2)].
Proof.
  assert (Hold : markerStripped (str "#Last") <> []) by discriminate.
  assert (Hnew : markerStripped (str "First") <> []) by discriminate.
  rewrite (renameTag_counts_the_documents_with_a_match LatinFragment.tables
             (str "#Last") (str "First")
             [exampleFileThree; exampleFileThree] Hold Hnew
             ltac:(repeat constructor)).
  vm_compute. reflexivity.
Defined.

Section RenameToItself.

Variable U : UnicodeTables.
Variable search : jsstring.

Lemma rename_processSingleTag_same (t : jsstring) (modified : bool) :
  exists modified',
    rename_processSingleTag search search t modified = Ok (t, modified').
Proof.
  unfold rename_processSingleTag.
  destruct (strictEq _ search) eqn:Heq.
  - exists true. apply strictEq_true_iff in Heq.
    destruct (startsWith t [hash]) eqn:Hhash; [|rewrite Heq; reflexivity].
    rewrite <- Heq, marker_and_substring by exact Hhash. reflexivity.
  - destruct (startsWith _ (search ++ [slash])) eqn:Hnested;
      [|exists modified; reflexivity].
    exists true. apply startsWith_true_iff in Hnested as [rest Hraw].
    rewrite <- app_assoc in Hraw.
    assert (Hsuffix : search
                      ++ substring (length search)
                           (if startsWith t [hash] then substring 1 t else t)
                      = (if startsWith t [hash] then substring 1 t else t))
      by (rewrite Hraw at 1; rewrite substring_app; symmetry; exact Hraw).
    rewrite Hsuffix.
    destruct (startsWith t [hash]) eqn:Hhash; [|reflexivity].
    rewrite marker_and_substring by exact Hhash. reflexivity.
Qed.

Lemma tagAfterBoundary_span (literal pre text : jsstring) (len : nat)
  (m : TagMatch) :
  tagAfterBoundary U literal pre text = Some (len, m) ->
  prefix m ++ hashGroup m ++ literal = firstn len (pre ++ text).
Proof.
  unfold tagAfterBoundary. destruct text as [|h text]; [discriminate|].
  destruct (N.eqb_spec h hash) as [->|]; [|discriminate]. cbn [andb].
  destruct (startsWith text literal) eqn:Hstart; [|discriminate].
  destruct (lookahead U (skipn (length literal) text)); [|discriminate].
  cbn [andb]. intros [= <- <-]. cbn [prefix hashGroup].
  apply startsWith_true_iff in Hstart as [rest ->].
  replace (length pre + 1 + length literal)%nat
    with (length (pre ++ [hash] ++ literal))
    by (rewrite !length_app; cbn [length]; lia).
  change (pre ++ hash :: literal ++ rest)
    with (pre ++ [hash] ++ literal ++ rest).
  rewrite !app_assoc, firstn_app, firstn_all, Nat.sub_diag. cbn [firstn].
  rewrite app_nil_r. reflexivity.
Qed.

Lemma rename_replacer_same (literal : jsstring) (atStart : bool)
  (text : jsstring) (len : nat) (m : TagMatch) (modified : bool) :
  tagRegex U literal atStart text = Some (len, m) ->
  fst (rename_replacer literal m modified) = firstn len text.
Proof.
  unfold tagRegex, rename_replacer. cbn [fst].
  destruct (if atStart then tagAfterBoundary U literal [] text else None)
    as [[len' m']|] eqn:Hfirst.
  - intros [= -> ->]. destruct atStart; [|discriminate].
    exact (tagAfterBoundary_span literal [] text len m Hfirst).
  - destruct text as [|w text]; [discriminate|].
    destruct (isSpace w); [|discriminate]. intros Hsecond.
    exact (tagAfterBoundary_span literal [w] text len m Hsecond).
Qed.

Lemma rename_file_same (file file' : TFile) (modified : bool) :
  rename_file U search search search file = Ok (file', modified) ->
  file' = file.
Proof.
  intros Hfile.
  destruct (rename_file_shape U _ _ _ _ _ _ Hfile)
    as [fm' [m1 [Hfm [-> _]]]].
  rewrite (processTagFields_same _ rename_processSingleTag_same _ _ _ _ Hfm).
  unfold rename_body, replaceGlobal.
  rewrite (replaceFrom_same_text _ _ (body file) 0 true m1
             (fun b text len g st => rename_replacer_same search b text len
                                       g st)).
  destruct file; reflexivity.
Qed.

End RenameToItself.

(** X16: renaming a tag to itself changes no document: when the old and the
    new tag are the same once their markers are stripped, the vault after
    [renameTag] is the vault before, front matter and bodies included,
    however the run ends. *)
Theorem renameTag_to_itself_changes_nothing
  (U : UnicodeTables) (oldTag newTag : jsstring) (files : list TFile) :
  markerStripped oldTag = markerStripped newTag ->
  fst (fst (renameTag U oldTag newTag files)) = files.
Proof.
  intros Hsame.
  destruct (markerStripped oldTag) as [|c search] eqn:Hold.
  - unfold renameTag. rewrite <- !markerStripped_eq, Hold. reflexivity.
  - assert (Hnew : markerStripped newTag <> [])
      by (rewrite <- Hsame; discriminate).
    assert (Hold' : markerStripped oldTag <> [])
      by (rewrite Hold; discriminate).
    rewrite renameTag_unfold by assumption.
    rewrite <- Hsame, Hold.
    pose proof (rename_loop_same U (c :: search) (c :: search) (c :: search)
                  files 0 (rename_file_same U (c :: search))) as Hloop.
    destruct (rename_loop U (c :: search) (c :: search) (c :: search) files 0)
      as [[files' events] [n|e]]; exact Hloop.
Qed.

Lemma renameTag_to_itself_changes_nothing_witness :
  fst (fst (renameTag LatinFragment.tables (str "#Last") (str "Last")
              exampleVault)) = exampleVault.
Proof.
  exact (renameTag_to_itself_changes_nothing LatinFragment.tables
           (str "#Last") (str "Last") exampleVault eq_refl).
Defined.

(* ------------------------------------------------------------------ *)
(** ** The escaping of the search term *)

(** X17: [escapeRegExp] loses nothing: the pattern grammar reads the escaped
    search term back as the search term itself, so two search terms with
    the same escaped form are the same; and a search term without syntax
    characters is its own escaped form. *)
Theorem escapeRegExp_is_faithful (search : jsstring) :
  patternLiteral (escapeRegExp search) = Some search /\
  (forall other, escapeRegExp other = escapeRegExp search -> other = search) /\
  (forallb (fun c => negb (isSyntaxChar c)) search = true ->
   escapeRegExp search = search).
Proof.
  split; [apply patternLiteral_escapeRegExp|]. split.
  - intros other Heq.
    pose proof (patternLiteral_escapeRegExp other) as Hother.
    rewrite Heq, patternLiteral_escapeRegExp in Hother. congruence.
  - induction search as [|c search IH]; [reflexivity|].
    cbn [forallb]. intros Hplain.
    apply andb_true_iff in Hplain as [Hc Hrest].
    apply negb_true_iff in Hc. unfold escapeRegExp in *. cbn [flat_map].
    rewrite Hc, IH by exact Hrest. reflexivity.
Qed.

Lemma escapeRegExp_is_faithful_witness :
  escapeRegExp (str "my-tag/sub_1") = str "my-tag/sub_1" /\
  escapeRegExp (str "c++ (v1.2)") = str "c\+\+ \(v1\.2\)".
Proof.
  split; [|reflexivity].
  exact (proj2 (proj2 (escapeRegExp_is_faithful (str "my-tag/sub_1")))
           eq_refl).
Defined.

(* ------------------------------------------------------------------ *)
(** ** The tag listing and the statistics *)

Section TagListFacts.

Variable localeCompare : jsstring -> jsstring -> Z.

Lemma sort_nil_iff (arr : list jsstring) :
  sort localeCompare arr = [] <-> arr = [].
Proof.
  split; [|intros ->; reflexivity]. intros Hs.
  pose proof (sort_permutation localeCompare arr) as Hperm.
  rewrite Hs in Hperm. apply Permutation_nil in Hperm. exact Hperm.
Qed.

Lemma modifyFile_others (name content : jsstring) (files : list TFile) :
  filter (fun f => negb (strictEq (path f) name))
    (modifyFile name content files)
  = filter (fun f => negb (strictEq (path f) name)) files.
Proof.
  induction files as [|f files IH]; [reflexivity|]. cbn [modifyFile].
  destruct (strictEq (path f) name) eqn:Hf; cbn [filter path].
  - rewrite strictEq_refl, Hf. reflexivity.
  - rewrite Hf, IH. reflexivity.
Qed.

Lemma createFile_others (name content : jsstring) (files : list TFile) :
  filter (fun f => negb (strictEq (path f) name))
    (createFile name content files)
  = filter (fun f => negb (strictEq (path f) name)) files.
Proof.
  unfold createFile. rewrite filter_app. cbn [filter path].
  rewrite strictEq_refl. cbn [negb]. apply app_nil_r.
Qed.

Lemma modifyFile_twice (name content : jsstring) (files : list TFile) :
  modifyFile name content (modifyFile name content files)
  = modifyFile name content files.
Proof.
  induction files as [|f files IH]; [reflexivity|]. cbn [modifyFile].
  destruct (strictEq (path f) name) eqn:Hf; cbn [modifyFile path].
  - rewrite strictEq_refl. reflexivity.
  - rewrite Hf, IH. reflexivity.
Qed.

Lemma modifyFile_created (name content : jsstring) (files : list TFile) :
  existsb (fun f => strictEq (path f) name) files = false ->
  modifyFile name content (createFile name content files)
  = createFile name content files.
Proof.
  unfold createFile. induction files as [|f files IH]; cbn [existsb app].
  - intros _. cbn [modifyFile path]. rewrite strictEq_refl. reflexivity.
  - intros Hnone. apply orb_false_iff in Hnone as [Hf Hrest].
    cbn [modifyFile]. rewrite Hf, IH by exact Hrest. reflexivity.
Qed.

Lemma existsb_modified (name content : jsstring) (files : list TFile) :
  existsb (fun f => strictEq (path f) name) files = true ->
  existsb (fun f => strictEq (path f) name) (modifyFile name content files)
  = true.
Proof.
  induction files as [|f files IH]; [discriminate|].
  cbn [existsb modifyFile].
  destruct (strictEq (path f) name) eqn:Hf; cbn [existsb path orb].
  - intros _. rewrite strictEq_refl. reflexivity.
  - intros H. rewrite Hf. cbn [orb]. apply IH. exact H.
Qed.

Lemma existsb_created (name content : jsstring) (files : list TFile) :
  existsb (fun f => strictEq (path f) name) (createFile name content files)
  = true.
Proof.
  unfold createFile. rewrite existsb_app. cbn [existsb path].
  rewrite strictEq_refl, orb_true_r. reflexivity.
Qed.

End TagListFacts.

(** X18: when the vault knows no tag ([getTags] gives nothing, or an object
    without keys), [generateTagList] writes nothing: the plugin and its
    vault are as before, no file is created or modified, and the one event
    is a notice. *)
Theorem generateTagList_without_tags_writes_nothing
  (localeCompare : jsstring -> jsstring -> Z) (p : Plugin) :
  uniqueTags p = [] ->
  fst (generateTagList localeCompare p) = p /\
  (snd (generateTagList localeCompare p) = [NewNotice NoTagsInVault] \/
   snd (generateTagList localeCompare p) = [NewNotice NoTagsToList]).
Proof.
  unfold uniqueTags, generateTagList. intros Hnone.
  destruct (getTags p) as [allTags|]; [|split; [reflexivity|left; reflexivity]].
  rewrite Hnone. cbn [sort fold_right].
  split; [reflexivity|right; reflexivity].
Qed.

Lemma generateTagList_without_tags_writes_nothing_witness :
  generateTagList RootCollationFragment.localeCompare
    {| vault := exampleVault; getTags := Some []; settings := DEFAULT_SETTINGS |}
  = ({| vault := exampleVault; getTags := Some [];
        settings := DEFAULT_SETTINGS |},
     [NewNotice NoTagsToList]).
Proof.
  destruct (generateTagList_without_tags_writes_nothing
              RootCollationFragment.localeCompare
              {| vault := exampleVault; getTags := Some [];
                 settings := DEFAULT_SETTINGS |} eq_refl) as [Hp _].
  apply injective_projections; [exact Hp | reflexivity].
Defined.

(** X19: [generateTagList] touches no document other than [All Tags.md]:
    the documents of the vault whose path is not [All Tags.md] are the same
    afterwards, in the same order, and the known tags and the settings are
    as before, whatever [localeCompare] is. *)
Theorem generateTagList_leaves_the_other_documents
  (localeCompare : jsstring -> jsstring -> Z) (p : Plugin) :
  filter (fun f => negb (strictEq (path f) fileName))
    (vault (fst (generateTagList localeCompare p)))
  = filter (fun f => negb (strictEq (path f) fileName)) (vault p) /\
  getTags (fst (generateTagList localeCompare p)) = getTags p /\
  settings (fst (generateTagList localeCompare p)) = settings p.
Proof.
  unfold generateTagList.
  destruct (getTags p) as [allTags|] eqn:Htags;
    [|cbn [fst]; rewrite ?Htags; repeat split].
  destruct (sort localeCompare (objectKeys allTags)) as [|t sortedTags];
    [cbn [fst]; rewrite ?Htags; repeat split|].
  destruct (existsb (fun f => strictEq (path f) fileName) (vault p));
    cbn [fst vault getTags settings].
  - rewrite modifyFile_others, ?Htags. repeat split.
  - rewrite createFile_others, ?Htags. repeat split.
Qed.

(** X20: generating the listing twice, with the same known tags, gives the
    vault that generating it once gives: the second run rewrites
    [All Tags.md] with the same content and creates no second file. *)
Theorem generateTagList_twice_is_once
  (localeCompare : jsstring -> jsstring -> Z) (p : Plugin) :
  fst (generateTagList localeCompare (fst (generateTagList localeCompare p)))
  = fst (generateTagList localeCompare p).
Proof.
  unfold generateTagList at 2 3.
  destruct (getTags p) as [allTags|] eqn:Htags.
  - destruct (sort localeCompare (objectKeys allTags)) as [|t sortedTags]
      eqn:Hsort.
    + cbn [fst]. unfold generateTagList. rewrite Htags, Hsort. reflexivity.
    + destruct (existsb (fun f => strictEq (path f) fileName) (vault p))
        eqn:Hexists; cbn [fst]; unfold generateTagList;
        cbn [getTags vault settings]; rewrite Hsort.
      * rewrite existsb_modified by exact Hexists. cbn [fst].
        rewrite modifyFile_twice. reflexivity.
      * rewrite existsb_created. cbn [fst].
        rewrite modifyFile_created by exact Hexists. reflexivity.
  - cbn [fst]. unfold generateTagList. rewrite Htags. reflexivity.
Qed.

(** X21: the statistics of [updateStats] never show more tags to update
    than there are tags: the second count is at most the first, which is
    the number of known tags (zero when [getTags] gives nothing), whatever
    the tags and the settings. *)
Theorem updateStats_affected_at_most_total
  (U : UnicodeTables) (modal : TagManagerModal) :
  exists affectedCount,
    statsEl (updateStats U modal)
    = [TotalUniqueTags (length (uniqueTags (plugin modal)));
       TagsToBeUpdated affectedCount] /\
    (affectedCount <= length (uniqueTags (plugin modal)))%nat.
Proof.
  eexists. split; [reflexivity|].
  unfold countAffected. rewrite countAffected_fold. cbn [Nat.add].
  apply filter_length_le.
Qed.

(** X22: with case strategy none, separators preserved and removal off,
    [updateStats] shows no tag to update, whatever the known tags. *)
Theorem updateStats_shows_nothing_to_update_when_all_is_off
  (U : UnicodeTables) (modal : TagManagerModal) :
  caseStrategy (settings (plugin modal)) = case_none ->
  separatorStrategy (settings (plugin modal)) = sep_preserve ->
  removeSpecialChars (settings (plugin modal)) = false ->
  statsEl (updateStats U modal)
  = [TotalUniqueTags (length (uniqueTags (plugin modal))); TagsToBeUpdated 0].
Proof.
  intros Hc Hs Hr. unfold updateStats. cbn [statsEl]. do 2 f_equal.
  unfold countAffected. rewrite countAffected_fold. cbn [Nat.add].
  induction (uniqueTags (plugin modal)) as [|tagName l IH]; [reflexivity|].
  cbn [filter].
  rewrite convertTagContent_unchanged, strictEq_refl by assumption.
  exact IH.
Qed.

Lemma updateStats_shows_nothing_to_update_when_all_is_off_witness :
  statsEl (updateStats LatinFragment.tables
             {| plugin := {| vault := exampleVault;
                             getTags := getTags examplePlugin;
                             settings := settings_change_nothing |};
                statsEl := [] |})
  = [TotalUniqueTags 3; TagsToBeUpdated 0].
Proof.
  exact (updateStats_shows_nothing_to_update_when_all_is_off
           LatinFragment.tables
           {| plugin := {| vault := exampleVault;
                           getTags := getTags examplePlugin;
                           settings := settings_change_nothing |};
              statsEl := [] |} eq_refl eq_refl eq_refl).
Defined.

(* ------------------------------------------------------------------ *)
(** ** The settings on disk *)

(** X23: the migration of [loadSettings] does not remove the legacy key.
    When the data hold [snakeCase], the separator strategy is set from it
    (snake when truthy, preserve otherwise), whatever separator strategy the
    data hold, and the data saved still hold [snakeCase] with the same
    value; loading again migrates again and gives the same settings and the
    same data. *)
Theorem loadSettings_keeps_the_legacy_key
  (d : PluginData) (snakeCase : bool) :
  data_snakeCase d = Some snakeCase ->
  separatorStrategy (values (fst (loadSettings (Some d))))
  = (if snakeCase then sep_snake else sep_preserve) /\
  (exists saved,
      snd (loadSettings (Some d)) = Some saved /\
      data_snakeCase saved = Some snakeCase) /\
  loadSettings (snd (loadSettings (Some d))) = loadSettings (Some d).
Proof.
  intros Hlegacy. unfold loadSettings. rewrite Hlegacy. cbn [fst snd].
  split; [reflexivity|]. split.
  - eexists. split; [reflexivity|]. cbn [saveSettings setSeparatorStrategy
      snakeCaseProperty data_snakeCase objectAssign]. exact Hlegacy.
  - cbn [saveSettings setSeparatorStrategy snakeCaseProperty data_snakeCase
           objectAssign values]. rewrite Hlegacy. reflexivity.
Qed.

Lemma loadSettings_keeps_the_legacy_key_witness :
  loadSettings (Some legacyData)
  = ({| values := settingsVariants_snake;
        snakeCaseProperty := Some true |},
     Some {| data_caseStrategy := Some case_lowercase;
             data_separatorStrategy := Some sep_snake;
             data_removeSpecialChars := Some false;
             data_applyToNestedTags := Some true;
             data_snakeCase := Some true |}) /\
  loadSettings (snd (loadSettings (Some legacyData)))
  = loadSettings (Some legacyData).
Proof.
  split; [reflexivity|].
  exact (proj2 (proj2 (loadSettings_keeps_the_legacy_key legacyData true
                         eq_refl))).
Defined.

(** X24: after a load that migrated, a separator strategy chosen in the
    dashboard or in the settings tab is saved together with the legacy key,
    so the next load sets the separator strategy from the legacy key again:
    the choice is lost. *)
Theorem loadSettings_overrides_a_later_separator_choice
  (d : PluginData) (snakeCase : bool) (choice : SeparatorStrategy) :
  data_snakeCase d = Some snakeCase ->
  separatorStrategy
    (values (fst (onChangeSeparatorStrategy choice
                    (fst (loadSettings (Some d)))))) = choice /\
  separatorStrategy
    (values
       (fst (loadSettings
               (snd (onChangeSeparatorStrategy choice
                       (fst (loadSettings (Some d))))))))
  = (if snakeCase then sep_snake else sep_preserve).
Proof.
  intros Hlegacy. unfold loadSettings at 2 3. rewrite Hlegacy.
  cbn [fst snd onChangeSeparatorStrategy]. split; [reflexivity|].
  unfold loadSettings.
  cbn [saveSettings setSeparatorStrategy snakeCaseProperty data_snakeCase
         objectAssign values].
  rewrite Hlegacy. reflexivity.
Qed.

Lemma loadSettings_overrides_a_later_separator_choice_witness :
  separatorStrategy
    (values
       (fst (loadSettings
               (snd (onChangeSeparatorStrategy sep_kebab
                       (fst (loadSettings (Some legacyData))))))))
  = sep_snake.
Proof.
  exact (proj2 (loadSettings_overrides_a_later_separator_choice legacyData
                  true sep_kebab eq_refl)).
Defined.

(** X25: without the legacy key, what [saveSettings] writes is what
    [loadSettings] reads: loading the saved data gives the settings back
    and writes nothing; and with no data at all [loadSettings] gives the
    default settings and writes nothing. *)
Theorem loadSettings_reads_back_what_saveSettings_wrote (s : SettingsObject) :
  snakeCaseProperty s = None ->
  loadSettings (Some (saveSettings s)) = (s, Some (saveSettings s)) /\
  loadSettings None
  = ({| values := DEFAULT_SETTINGS; snakeCaseProperty := None |}, None).
Proof.
  intros Hnone. split; [|reflexivity].
  destruct s as [[c sp r n] legacy]. cbn [snakeCaseProperty] in Hnone.
  subst legacy. reflexivity.
Qed.

Lemma loadSettings_reads_back_what_saveSettings_wrote_witness :
  loadSettings
    (Some (saveSettings {| values := settings_strip_kebab;
                           snakeCaseProperty := None |}))
  = ({| values := settings_strip_kebab; snakeCaseProperty := None |},
     Some (saveSettings {| values := settings_strip_kebab;
                           snakeCaseProperty := None |})).
Proof.
  exact (proj1 (loadSettings_reads_back_what_saveSettings_wrote
                  {| values := settings_strip_kebab;
                     snakeCaseProperty := None |} eq_refl)).
Defined.

(* ------------------------------------------------------------------ *)
(** ** The tags of the front matter under [processFile] *)

Section ProcessFileTags.

Variable U : UnicodeTables.
Variable settings : TagLowercaseSettings.

Lemma convert_elements (ts : list jsstring) :
  mapEff (onElem (convert_processSingleTag U settings))
    (List.map ElString ts) tt
  = Ok (List.map
          (fun t => ElString ((if startsWith t [hash] then [hash] else [])
                              ++ convertTagContent U settings
                                   (markerStripped t))) ts, tt).
Proof.
  induction ts as [|t ts IH]; [reflexivity|].
  cbn [List.map mapEff onElem]. unfold bind at 1. unfold bind at 1.
  unfold convert_processSingleTag at 1. cbn [ret]. unfold bind at 1.
  rewrite IH. cbn [ret]. rewrite markerStripped_eq.
  destruct (startsWith t [hash]); reflexivity.
Qed.

Lemma processTagFields_tags (fm fm' : FrontMatter) (v : FmValue) :
  processField (convert_processSingleTag U settings) (tags fm) tt = Ok (v, tt) ->
  processTagFields (convert_processSingleTag U settings) fm tt = Ok (fm', tt) ->
  tags fm' = v.
Proof.
  intros Htags. unfold processTagFields. unfold bind at 1. rewrite Htags.
  unfold bind at 1.
  destruct (processField _ (tag fm) tt) as [[v2 st2]|e]; [|discriminate].
  cbn [ret]. intros [= <-]. reflexivity.
Qed.

End ProcessFileTags.

(** X26: when [tags] is an array of strings (and [tag] raises no
    exception), [processFile] replaces each element by its conversion, in
    the same order: the marker of an element is kept if it has one, and what
    follows the marker goes through [convertTagContent]. *)
Theorem processFile_converts_each_tag_of_the_array
  (U : UnicodeTables) (settings : TagLowercaseSettings) (file : TFile)
  (ts : list jsstring) :
  tags (frontmatter file) = FmArray (List.map ElString ts) ->
  holdsNonString (tag (frontmatter file)) = false ->
  tags (frontmatter (fileAfter (processFile U settings file)))
  = FmArray
      (List.map
         (fun t => ElString ((if startsWith t [hash] then [hash] else [])
                             ++ convertTagContent U settings
                                  (markerStripped t))) ts).
Proof.
  intros Htags Htag.
  assert (Hreturns : frontMatterThrows (frontmatter file) = false).
  { unfold frontMatterThrows. rewrite Htags, Htag. cbn [holdsNonString].
    rewrite orb_false_r. clear. induction ts as [|t ts IH]; [reflexivity|].
    exact IH. }
  destruct (processFile_returns U settings file Hreturns) as [fm' [-> Hfm]].
  cbn [fileAfter frontmatter].
  apply (processTagFields_tags U settings (frontmatter file) fm'); [|exact Hfm].
  rewrite Htags. cbn [processField]. unfold bind.
  rewrite convert_elements. reflexivity.
Qed.

Lemma processFile_converts_each_tag_of_the_array_witness :
  tags (frontmatter
          (fileAfter
             (processFile LatinFragment.tables settingsVariants_kebab
                {| path := str "n.md";
                   frontmatter :=
                     {| tags := FmArray [ElString (str "#My_Tag");
                                         ElString (str "Other_One/Sub_X")];
                        tag := FmMissing |};
                   body := [] |})))
  = FmArray [ElString (str "#my-tag"); ElString (str "other-one/sub-x")].
Proof.
  exact (processFile_converts_each_tag_of_the_array LatinFragment.tables
           settingsVariants_kebab
           {| path := str "n.md";
              frontmatter :=
                {| tags := FmArray [ElString (str "#My_Tag");
                                    ElString (str "Other_One/Sub_X")];
                   tag := FmMissing |};
              body := [] |}
           [str "#My_Tag"; str "Other_One/Sub_X"] eq_refl eq_refl).
Defined.
